(** * ISR predictor: the inference path of [ISR/predict/predictor.py]

    A shallow embedding of [Predictor._forward_pass] and [Predictor._predict]
    and the properties of the tiled inference pipeline that follow from
    them.

    Conventions of the embedding.
    - Python integers are [Z]; a shape tuple is a [list Z].
    - A numpy array is its shape together with its row-major buffer
      ([ndarray]); samples are rationals, which stand for both the 8-bit
      samples of a decoded file and the floating samples of the model
      domain.  A rank-4 array of patches is handled through the list of its
      rank-3 items ([Batch]), which is all the predictor does with it
      ([len], slicing and [np.append] along axis 0, indexing at 0).
    - A Python call that may raise returns a [Res]; the predictor's code runs
      in the monad [M], which also records the calls made to the
      collaborators, in order, as a list of [Event]s.
    - The functions imported from [ISR.utils] (logger, array codec, patch
      splitter, stitcher), [imageio.imread] and the names that the two
      methods read from their enclosing scope are the fields of a
      [Namespace]; the code is embedded over an arbitrary one. *)

From Stdlib Require Import ZArith List String Ascii Bool Lia QArith Qround.
From Stdlib Require Import DecimalString Sorting Permutation.
Import ListNotations.

Local Open Scope string_scope.
Local Open Scope list_scope.
Local Open Scope Z_scope.

(** ** Python values and exceptions *)

(** The exceptions the embedded code can meet: the built-in ones raised by
    the interpreter and numpy, and [Raised], an exception of a class defined
    elsewhere (by a collaborator), with its name and integer arguments. *)
Inductive exn : Type :=
| TypeError
| ValueError
| IndexError
| NameError (name : string)
| UnboundLocalError (name : string)
| Raised (class : string) (args : list Z).

Inductive Res (X : Type) : Type :=
| Ok (x : X)
| Raise (e : exn).
Arguments Ok {X} x.
Arguments Raise {X} e.

Definition is_ok {X} (r : Res X) : bool :=
  match r with Ok _ => true | Raise _ => false end.

(** The error kinds named by the specification; the source defines none of
    them. *)
Definition InvalidChannelCount : exn := Raised "InvalidChannelCount" [].
Definition InvalidPatchSize : exn := Raised "InvalidPatchSize" [].
Definition ShapeMismatchError : exn := Raised "ShapeMismatchError" [].
Definition ModelInferenceError (first last : Z) : exn :=
  Raised "ModelInferenceError" [first; last].

(** ** Arrays *)

Record ndarray : Type := mk_ndarray { shape : list Z; data : list Q }.

Definition Batch : Type := list ndarray.

(** [ndarray.size]: the number of elements, an integer. *)
Definition size (a : ndarray) : Z := fold_right Z.mul 1 (shape a).

(** [len(patches)] *)
Definition len {X} (l : list X) : Z := Z.of_nat (List.length l).

(** [t[i]] on a tuple or list, for [i >= 0] and for negative [i]. *)
Definition getitem {X} (l : list X) (i : Z) : Res X :=
  let j := if i <? 0 then i + len l else i in
  if (j <? 0) || (len l <=? j) then Raise IndexError
  else match nth_error l (Z.to_nat j) with
       | Some x => Ok x
       | None => Raise IndexError
       end.

(** [n[i]] on an integer: integers are not subscriptable. *)
Definition int_getitem (n : Z) (i : Z) : Res Z := Raise TypeError.

(** [l[i:j]]: both bounds are clamped to the sequence, a negative bound
    counts from the end. *)
Definition clamp_index (n k : Z) : Z :=
  if k <? 0 then Z.max 0 (k + n) else Z.min k n.

Definition slice {X} (l : list X) (i j : Z) : list X :=
  let a := clamp_index (len l) i in
  let b := clamp_index (len l) j in
  firstn (Z.to_nat (b - a)) (skipn (Z.to_nat a) l).

(** [range(start, stop, step)]: a zero step is a [ValueError]. *)
Definition range_count (start stop step : Z) : Z :=
  if 0 <? step then Z.max 0 ((stop - start + step - 1) / step)
  else Z.max 0 ((start - stop - step - 1) / (- step)).

Definition py_range (start stop step : Z) : Res (list Z) :=
  if step =? 0 then Raise ValueError
  else Ok (map (fun k => start + Z.of_nat k * step)
               (seq 0 (Z.to_nat (range_count start stop step)))).

(** The integers of an array that [numpy] makes from Python integers are
    [int64] values: a product that leaves the range wraps around
    silently. *)
Definition in_int64 (n : Z) : Prop := - 2 ^ 63 <= n < 2 ^ 63.

Definition wrap_int64 (n : Z) : Z := (n + 2 ^ 63) mod 2 ^ 64 - 2 ^ 63.

(** [tuple(np.multiply(shp[0:2], scale)) + (3,)], for dimensions and a
    scale that are [int64] values themselves: the products are taken in
    [int64]. *)
Definition scaled_shape (shp : list Z) (scale : Z) : list Z :=
  map (fun d => wrap_int64 (d * scale)) (slice shp 0 2) ++ [3].

Definition shape_eqb (s t : list Z) : bool :=
  if list_eq_dec Z.eq_dec s t then true else false.

(** [np.append(collect, batch, axis=0)]: the items of both arrays must have
    one and the same shape. *)
Definition np_append (collect batch : Batch) : Res Batch :=
  if forallb (fun x => forallb (fun y => shape_eqb (shape x) (shape y)) batch)
             collect
  then Ok (collect ++ batch)
  else Raise ValueError.

(** [str(n)], as [format] prints an integer. *)
Definition str (n : Z) : string := NilZero.string_of_int (Z.to_int n).

(** ** The model collaborator: [predict] and the attribute [scale] *)

Record Model : Type := mk_Model {
  predict : Batch -> Res Batch;
  scale : Z
}.

(** ** Calls and their trace *)

Inductive LogLevel : Type := INFO | ERROR.

Inductive Event : Type :=
| EvImread (file_path : string)
| EvLog (level : LogLevel) (msg : string)
| EvProcessArray (image_array : ndarray) (expand : bool)
| EvSplit (image_array : ndarray) (patch_size padding_size : Z)
| EvPredict (batch : Batch)
| EvStitch (patches : Batch) (padded_image_shape target_shape : list Z)
           (padding_size : Z)
| EvProcessOutput (output : ndarray).

Definition M (X : Type) : Type := (Res X * list Event)%type.

Definition ret {X} (x : X) : M X := (Ok x, []).

Definition raise {X} (e : exn) : M X := (Raise e, []).

Definition lift {X} (r : Res X) : M X := (r, []).

Definition bind {X Y} (m : M X) (f : X -> M Y) : M Y :=
  match m with
  | (Ok x, t) => let (r, t') := f x in (r, t ++ t')
  | (Raise e, t) => (Raise e, t)
  end.

Definition call {X} (ev : Event) (r : Res X) : M X := (r, [ev]).

Declare Scope py_scope.
Delimit Scope py_scope with py.
Notation "x <- m ;; k" := (bind m (fun x => k))
  (at level 61, m at next level, right associativity) : py_scope.
Notation "' pat <- m ;; k" := (bind m (fun x => match x with pat => k end))
  (at level 61, pat pattern, m at next level, right associativity) : py_scope.
Notation "m ;;; k" := (bind m (fun _ => k))
  (at level 61, right associativity) : py_scope.
Local Open Scope py_scope.

(** [for x in xs: s = body(x, s)], the loop state threaded through. *)
Fixpoint for_each {I S} (xs : list I) (body : I -> S -> M S) (s : S) : M S :=
  match xs with
  | [] => ret s
  | x :: xs' => s' <- body x s ;; for_each xs' body s'
  end.

(** ** Reading a trace *)

(** The groups handed to [model.predict], in call order. *)
Fixpoint predict_calls (t : list Event) : list Batch :=
  match t with
  | [] => []
  | EvPredict b :: t' => b :: predict_calls t'
  | _ :: t' => predict_calls t'
  end.

(** The prediction arrays handed to [stich_together], in call order. *)
Fixpoint stitch_calls (t : list Event) : list Batch :=
  match t with
  | [] => []
  | EvStitch c _ _ _ :: t' => c :: stitch_calls t'
  | _ :: t' => stitch_calls t'
  end.

(** The patch sizes handed to [split_image_into_overlapping_patches]. *)
Fixpoint split_calls (t : list Event) : list Z :=
  match t with
  | [] => []
  | EvSplit _ p _ :: t' => p :: split_calls t'
  | _ :: t' => split_calls t'
  end.

(** ** The enclosing scope of the two methods *)

(** What [process_array] returns: a rank-3 array when called with
    [expand=False], a batch of rank-3 arrays when called with
    [expand=True]. *)
Definition process_array_result (expand : bool) : Type :=
  if expand then Batch else ndarray.

(** [process_array], [process_output],
    [split_image_into_overlapping_patches] and [stich_together] are imported
    from [ISR.utils.image_processing], the logger comes from
    [ISR.utils.logger] and [imread] from [imageio]; none of them is defined
    in [predictor.py].

    [_predict] is declared with the parameters
    [(model, input_image_array, by_patch_of_size, batch_size, padding_size)]
    and reads the name [self], which is not one of them; [_forward_pass]
    reads the name [model], which is neither a parameter nor a local.
    [name_self] and [name_model] are what the lookup of these two names
    gives: the value, or the [NameError] of an unresolved name. *)
Record Namespace : Type := mk_Namespace {
  imread : string -> Res ndarray;
  logger : LogLevel -> string -> Res unit;
  process_array :
    ndarray -> forall expand : bool, Res (process_array_result expand);
  process_output : ndarray -> Res ndarray;
  split_image_into_overlapping_patches :
    ndarray -> Z -> Z -> Res (Batch * list Z);
  stich_together : Batch -> list Z -> list Z -> Z -> Res ndarray;
  name_self : Res unit;
  name_model : Res Model
}.

Section Predictor.

Variable G : Namespace.

(** *** Calls to the collaborators, recorded on the trace *)

Definition logger_info (msg : string) : M unit :=
  call (EvLog INFO msg) (logger G INFO msg).

Definition logger_error (msg : string) : M unit :=
  call (EvLog ERROR msg) (logger G ERROR msg).

Definition call_imread (file_path : string) : M ndarray :=
  call (EvImread file_path) (imread G file_path).

Definition call_process_array (a : ndarray) (expand : bool)
  : M (process_array_result expand) :=
  call (EvProcessArray a expand) (process_array G a expand).

Definition call_process_output (a : ndarray) : M ndarray :=
  call (EvProcessOutput a) (process_output G a).

Definition call_split (a : ndarray) (patch_size padding_size : Z)
  : M (Batch * list Z) :=
  call (EvSplit a patch_size padding_size)
       (split_image_into_overlapping_patches G a patch_size padding_size).

Definition call_stitch (patches : Batch) (padded target : list Z)
  (padding_size : Z) : M ndarray :=
  call (EvStitch patches padded target padding_size)
       (stich_together G patches padded target padding_size).

Definition call_predict (model : Model) (batch : Batch) : M Batch :=
  call (EvPredict batch) (predict model batch).

(** *** [_predict], lines 142-202 *)

(** Lines 175-183: the stitch of whatever [collect] holds. *)
Definition stitch_collected (model : Model) (input_image_array : ndarray)
  (p_shape : list Z) (padding_size : Z) (collect : Batch) : M ndarray :=
  let scale := scale model in
  let padded_size_scaled := scaled_shape p_shape scale in
  let scaled_image_shape := scaled_shape (shape input_image_array) scale in
  call_stitch collect padded_size_scaled scaled_image_shape
              (padding_size * scale).

(** Lines 169-173: one group through the model, appended to [collect].
    [collect] is [None] as long as the local is unbound. *)
Definition predict_group (model : Model) (patches : Batch) (batch_size : Z)
  (i : Z) (collect : option Batch) : M Batch :=
  batch <- call_predict model (slice patches i (i + batch_size)) ;;
  if i =? 0 then ret batch
  else match collect with
       | Some c => lift (np_append c batch)
       | None => raise (UnboundLocalError "collect")
       end.

(** Lines 168-185: the body of the [for] loop.  The stitched image and the
    value of [process_output] are dropped, the loop carries [collect]. *)
Definition loop_body (model : Model) (input_image_array : ndarray)
  (patches : Batch) (p_shape : list Z) (batch_size padding_size : Z)
  (i : Z) (collect : option Batch) : M (option Batch) :=
  lift (name_self G) ;;;
  logger_info ("Processing patch: " ++ str i ++ "/" ++ str (len patches))
    ;;;
  collect' <- predict_group model patches batch_size i collect ;;
  sr_img <- stitch_collected model input_image_array p_shape padding_size
                             collect' ;;
  call_process_output sr_img ;;;
  ret (Some collect').

(** Lines 167-185: the [for] loop over [range(0, len(patches), batch_size)],
    entered with [collect] unbound. *)
Definition batch_loop (model : Model) (input_image_array : ndarray)
  (patches : Batch) (p_shape : list Z) (batch_size padding_size : Z)
  : M (option Batch) :=
  indices <- lift (py_range 0 (len patches) batch_size) ;;
  for_each indices
    (loop_body model input_image_array patches p_shape
               batch_size padding_size) None.

(** Lines 198-199. *)
Definition single_pass (model : Model) (input_image_array : ndarray)
  : M ndarray :=
  lr_img <- call_process_array input_image_array true ;;
  out <- call_predict model lr_img ;;
  lift (getitem out 0).

(** Lines 160-195. *)
Definition tiled (model : Model) (input_image_array : ndarray)
  (by_patch_of_size batch_size padding_size : Z) : M ndarray :=
  lift (name_self G) ;;;
  logger_info ("Patches of size " ++ str by_patch_of_size) ;;;
  lr_img <- call_process_array input_image_array false ;;
  '(patches, p_shape) <-
     call_split lr_img by_patch_of_size padding_size ;;
  lift (name_self G) ;;;
  logger_info ("No. patches: " ++ str (len patches)) ;;;
  collect <- batch_loop model input_image_array patches p_shape
                        batch_size padding_size ;;
  match collect with
  | Some c => stitch_collected model input_image_array p_shape padding_size c
  | None => raise (UnboundLocalError "collect")
  end.

(** [if by_patch_of_size:] holds for an integer other than 0; [None] and 0
    take the [else] branch. *)
Definition _predict (model : Model) (input_image_array : ndarray)
  (by_patch_of_size : option Z) (batch_size padding_size : Z) : M ndarray :=
  sr_img <-
    match by_patch_of_size with
    | Some p =>
        if p =? 0 then single_pass model input_image_array
        else tiled model input_image_array p batch_size padding_size
    | None => single_pass model input_image_array
    end ;;
  call_process_output sr_img.

(** The defaults of the signature. *)
Definition default_batch_size : Z := 10.
Definition default_padding_size : Z := 2.

(** *** [_forward_pass], lines 131-140

    [lr_img.size] is the element count of the array, so [lr_img.size[1]]
    subscripts an integer and raises; what follows it in the branch is
    never reached.  The two calls of [_predict] are written with [model],
    [lr_img] and 256 as the model, the image and the patch size, the
    parameters the call site means them for.  The [else] branch logs and
    falls off the end of the function: the result is [None]. *)
Definition _forward_pass (file_path : string) : M (option ndarray) :=
  lr_img <- call_imread file_path ;;
  channels <- lift (getitem (shape lr_img) 2) ;;
  if channels =? 3 then
    extent <- lift (int_getitem (size lr_img) 1) ;;
    model <- lift (name_model G) ;;
    sr_img <-
      (if 1024 <? extent
       then _predict model lr_img (Some 256)
                     default_batch_size default_padding_size
       else _predict model lr_img None
                     default_batch_size default_padding_size) ;;
    ret (Some sr_img)
  else
    logger_error (file_path ++ " is not an image with 3 channels.") ;;;
    ret None.

(** *** The same loop with a single stitch after it

    [_predict_stitch_once] is [_predict] without lines 175-185: the loop
    only runs the groups through the model and collects. *)
Definition loop_body_once (model : Model) (patches : Batch)
  (batch_size : Z) (i : Z) (collect : option Batch) : M (option Batch) :=
  lift (name_self G) ;;;
  logger_info ("Processing patch: " ++ str i ++ "/" ++ str (len patches))
    ;;;
  collect' <- predict_group model patches batch_size i collect ;;
  ret (Some collect').

Definition batch_loop_once (model : Model) (patches : Batch)
  (batch_size : Z) : M (option Batch) :=
  indices <- lift (py_range 0 (len patches) batch_size) ;;
  for_each indices (loop_body_once model patches batch_size) None.

Definition tiled_stitch_once (model : Model) (input_image_array : ndarray)
  (by_patch_of_size batch_size padding_size : Z) : M ndarray :=
  lift (name_self G) ;;;
  logger_info ("Patches of size " ++ str by_patch_of_size) ;;;
  lr_img <- call_process_array input_image_array false ;;
  '(patches, p_shape) <-
     call_split lr_img by_patch_of_size padding_size ;;
  lift (name_self G) ;;;
  logger_info ("No. patches: " ++ str (len patches)) ;;;
  collect <- batch_loop_once model patches batch_size ;;
  match collect with
  | Some c => stitch_collected model input_image_array p_shape padding_size c
  | None => raise (UnboundLocalError "collect")
  end.

Definition _predict_stitch_once (model : Model) (input_image_array : ndarray)
  (by_patch_of_size : option Z) (batch_size padding_size : Z) : M ndarray :=
  sr_img <-
    match by_patch_of_size with
    | Some p =>
        if p =? 0 then single_pass model input_image_array
        else tiled_stitch_once model input_image_array p batch_size
                               padding_size
    | None => single_pass model input_image_array
    end ;;
  call_process_output sr_img.

End Predictor.

(** ** The collaborators as the specification describes them

    The bodies of the imported functions are not part of the file verified
    here.  The definitions of this module follow the specification's
    sections 4.1, 4.2 and 4.4; they give the theorems on [_predict] a
    concrete namespace to run in. *)
Module SpecModel.

(** Rank-3 arrays by index: [build3 h w c f] holds [f y x k] at [(y, x, k)];
    [get3 a y x k] reads it back and is 0 outside the array (zero fill). *)
Definition zrange (n : Z) : list Z := map Z.of_nat (seq 0 (Z.to_nat n)).

Definition build3 (h w c : Z) (f : Z -> Z -> Z -> Q) : ndarray :=
  mk_ndarray [h; w; c]
    (flat_map (fun y => flat_map (fun x => map (f y x) (zrange c)) (zrange w))
              (zrange h)).

Definition get3 (a : ndarray) (y x k : Z) : Q :=
  match shape a with
  | [h; w; c] =>
      if (0 <=? y) && (y <? h) && (0 <=? x) && (x <? w)
         && (0 <=? k) && (k <? c)
      then nth (Z.to_nat ((y * w + x) * c + k)) (data a) 0%Q
      else 0%Q
  | _ => 0%Q
  end.

(** Modelled from the spec: the body of [process_array] is missing.
    Section 4.1, [to_model_domain]: the 8-bit samples are mapped to the
    model's range (here [0, 1]) without resizing. *)
Definition to_model_domain (a : ndarray) : ndarray :=
  mk_ndarray (shape a) (map (fun v => (v / 255)%Q) (data a)).

(** Modelled from the spec: the body of [process_array] is missing.
    Section 4.1: an input whose channel axis is not of length 3 fails with
    [InvalidChannelCount]; section 4.5: with [expand] the result is a batch
    of one. *)
Definition process_array (a : ndarray) (expand : bool)
  : Res (process_array_result expand) :=
  match shape a with
  | [_; _; 3] =>
      match expand with
      | true => Ok [to_model_domain a]
      | false => Ok (to_model_domain a)
      end
  | _ => Raise InvalidChannelCount
  end.

(** Modelled from the spec: the body of [process_output] is missing.
    Section 4.1, [from_model_domain]: values are clipped to the valid
    range. *)
Definition clip01 (v : Q) : Q :=
  if Qle_bool v 0 then 0%Q else if Qle_bool 1 v then 1%Q else v.

(** Modelled from the spec: the body of [process_output] is missing.
    Section 4.1, [from_model_domain]: the clipped values are cast to the
    display sample type, an integer of 0..255. *)
Definition from_model_domain (a : ndarray) : ndarray :=
  mk_ndarray (shape a)
    (map (fun v => inject_Z (Qfloor (clip01 v * 255))) (data a)).

(** Modelled from the spec: the body of [process_output] is missing.
    Section 4.1 names no error of the reverse mapping. *)
Definition process_output (a : ndarray) : Res ndarray :=
  Ok (from_model_domain a).

(** Modelled from the spec: the body of
    [split_image_into_overlapping_patches] is missing.  Section 4.2, step
    1: the smallest multiple of [patch_size] that is at least [n]. *)
Definition next_multiple (n p : Z) : Z := ((n + p - 1) / p) * p.

(** Modelled from the spec: the body of
    [split_image_into_overlapping_patches] is missing.  Section 4.2: each
    axis is padded at the bottom/right with zeros to the next multiple of
    [patch_size], a zero border of [padding_size] is added, and the tiles of
    side [patch_size + 2*padding_size] are taken in row-major order with
    stride [patch_size]; the returned shape is the padded one, before the
    border.  [patch_size > 0] and 3 channels are preconditions. *)
Definition split_image_into_overlapping_patches
  (a : ndarray) (patch_size padding_size : Z) : Res (Batch * list Z) :=
  if patch_size <=? 0 then Raise InvalidPatchSize
  else match shape a with
       | [h; w; 3] =>
           let ph := next_multiple h patch_size in
           let pw := next_multiple w patch_size in
           let side := patch_size + 2 * padding_size in
           Ok (flat_map
                 (fun i =>
                    map (fun j =>
                           build3 side side 3
                             (fun y x k =>
                                get3 a (i * patch_size + y - padding_size)
                                       (j * patch_size + x - padding_size) k))
                        (zrange (pw / patch_size)))
                 (zrange (ph / patch_size)),
               [ph; pw; 3])
       | _ => Raise InvalidChannelCount
       end.

(** Modelled from the spec: the body of [stich_together] is missing.
    Section 4.4: every prediction is cropped by [padding_size] on all
    sides and placed row-major in a canvas of [padded_image_shape]; the
    canvas is cropped from the top-left to [target_shape].  Cells of the
    canvas for which no prediction is given are zero.  Predictions that do
    not share one square 3-channel shape tiling the canvas are a
    [ShapeMismatchError] (section 7). *)
Definition stich_together (patches : Batch)
  (padded_image_shape target_shape : list Z) (padding_size : Z)
  : Res ndarray :=
  match patches, padded_image_shape, target_shape with
  | p0 :: _, [ph; pw; 3], [th; tw; 3] =>
      match shape p0 with
      | [s; s'; 3] =>
          let t := s - 2 * padding_size in
          if (s =? s') && (0 <? t) && (ph mod t =? 0) && (pw mod t =? 0)
             && forallb (fun p => shape_eqb (shape p) (shape p0)) patches
          then
            let per_row := pw / t in
            Ok (build3 th tw 3
                  (fun y x k =>
                     if (y <? ph) && (x <? pw) then
                       match nth_error patches
                               (Z.to_nat ((y / t) * per_row + x / t)) with
                       | Some p => get3 p (y mod t + padding_size)
                                          (x mod t + padding_size) k
                       | None => 0%Q
                       end
                     else 0%Q))
          else Raise ShapeMismatchError
      | _ => Raise ShapeMismatchError
      end
  | _, _, _ => Raise ShapeMismatchError
  end.

(** A model for tests (section 9): nearest-neighbour upscaling by [s]
    applied to each item of the batch. *)
Definition upscale (s : Z) (a : ndarray) : ndarray :=
  match shape a with
  | [h; w; c] =>
      build3 (h * s) (w * s) c (fun y x k => get3 a (y / s) (x / s) k)
  | _ => a
  end.

Definition upscaling_model (s : Z) : Model :=
  mk_Model (fun batch => Ok (map (upscale s) batch)) s.

(** A model that accepts groups of exactly [n] items and raises on any
    other group, as a network built for a fixed batch dimension does. *)
Definition fixed_batch_model (s : Z) (n : Z) : Model :=
  mk_Model (fun batch =>
              if len batch =? n then Ok (map (upscale s) batch)
              else Raise (Raised "InvalidArgumentError" [len batch]))
           s.

(** A constant image of the given shape. *)
Definition blank (shp : list Z) (v : Q) : ndarray :=
  mk_ndarray shp (repeat v (Z.to_nat (fold_right Z.mul 1 shp))).

(** An RGB image of the given height and width with distinct samples. *)
Definition gradient (h w : Z) : ndarray :=
  build3 h w 3 (fun y x k => inject_Z ((y * w + x) * 3 + k)).

(** What [imread] decodes in the examples. *)
Definition files (file_path : string) : Res ndarray :=
  if String.eqb file_path "small.png" then Ok (gradient 4 4)
  else if String.eqb file_path "rgba.png" then Ok (blank [3; 3; 4] 7%Q)
  else if String.eqb file_path "large.png" then Ok (blank [2000; 2000; 3] 7%Q)
  else if String.eqb file_path "tall.png" then Ok (blank [2000; 10; 3] 7%Q)
  else Raise (Raised "FileNotFoundError" []).

(** The namespace in which every name resolves: [self] to a predictor
    whose logger accepts every message, [model] to [m]. *)
Definition namespace (m : Model) : Namespace :=
  mk_Namespace files (fun _ _ => Ok tt)
    process_array process_output
    split_image_into_overlapping_patches stich_together
    (Ok tt) (Ok m).

(** The namespace of the module as it is written: neither [self] nor
    [model] is bound where [_predict] and [_forward_pass] read them. *)
Definition namespace_as_written : Namespace :=
  mk_Namespace files (fun _ _ => Ok tt)
    process_array process_output
    split_image_into_overlapping_patches stich_together
    (Raise (NameError "self")) (Raise (NameError "model")).

(** The values used in the examples: the doubling model of the
    specification's scenario A and the namespace built on it, a model of
    fixed batch dimension 2, and the patches the splitter gives. *)
Definition doubling : Model := upscaling_model 2.

Definition world : Namespace := namespace doubling.

Definition pairs_only : Model := fixed_batch_model 2 2.

Definition patches_of (a : ndarray) (patch_size padding_size : Z) : Batch :=
  match split_image_into_overlapping_patches a patch_size padding_size with
  | Ok (patches, _) => patches
  | Raise _ => []
  end.

End SpecModel.


(** ** What the specification promises of the collaborators

    Sections 4.1, 4.2, 4.4 and 6, as far as shapes go: the codec keeps the
    shape, the splitter returns at least one patch for a non-empty image,
    all patches of side [patch_size + 2*padding_size], and a padded shape
    whose sides are multiples of [patch_size]; the model maps a group to as
    many outputs, each [scale] times as large; the stitcher returns an array
    of the target shape. *)
Definition has_shape (s : list Z) (a : ndarray) : Prop := shape a = s.

Record contracts (G : Namespace) (m : Model) : Prop := mk_contracts {
  self_resolves : name_self G = Ok tt;
  logger_returns : forall level msg, logger G level msg = Ok tt;
  codec_forward : forall a h w,
    shape a = [h; w; 3] ->
    exists b, process_array G a false = Ok b /\ shape b = shape a;
  codec_forward_expand : forall a h w,
    shape a = [h; w; 3] ->
    exists b, process_array G a true = Ok [b] /\ shape b = shape a;
  codec_reverse : forall a,
    exists b, process_output G a = Ok b /\ shape b = shape a;
  splitter : forall a h w p pad,
    shape a = [h; w; 3] -> 0 < h -> 0 < w -> 0 < p -> 0 <= pad ->
    exists patches ph pw,
      split_image_into_overlapping_patches G a p pad
        = Ok (patches, [ph; pw; 3]) /\
      patches <> [] /\
      Forall (has_shape [p + 2 * pad; p + 2 * pad; 3]) patches /\
      ph mod p = 0 /\ pw mod p = 0 /\
      0 <= ph < h + p /\ 0 <= pw < w + p;
  stitcher : forall c t pad ph pw th tw,
    c <> [] -> Forall (has_shape [t + 2 * pad; t + 2 * pad; 3]) c ->
    0 < t -> ph mod t = 0 -> pw mod t = 0 ->
    exists r, stich_together G c [ph; pw; 3] [th; tw; 3] pad = Ok r /\
              shape r = [th; tw; 3];
  model_scale : 0 < scale m;
  model_predict : forall batch h w,
    Forall (has_shape [h; w; 3]) batch ->
    exists out, predict m batch = Ok out /\ len out = len batch /\
                Forall (has_shape [h * scale m; w * scale m; 3]) out
}.

(** ** Predicates of the batch loop *)

(** The number of groups: [ceil(n / batch_size)]. *)
Definition group_count (n batch_size : Z) : nat :=
  Z.to_nat ((n + batch_size - 1) / batch_size).

(** What [collect] holds after [k] groups: one prediction per patch seen so
    far, each the model's output for that patch within its group. *)
Definition collected (model : Model) (patches : Batch) (batch_size : Z)
  (k : nat) (collect : option Batch) : Prop :=
  match k with
  | O => True
  | _ =>
      exists c, collect = Some c /\
        len c = Z.min (Z.of_nat k * batch_size) (len patches) /\
        forall i, 0 <= i < len c ->
          exists out,
            predict model
              (slice patches (i / batch_size * batch_size)
                     (i / batch_size * batch_size + batch_size)) = Ok out /\
            nth_error c (Z.to_nat i)
            = nth_error out (Z.to_nat (i mod batch_size))
  end.

(** [fails_fast model run]: a call of [model.predict] that raises is the
    last thing [run] does, and its exception is the outcome of [run]. *)
Definition fails_fast (model : Model) {X} (run : M X) : Prop :=
  forall batch e,
    In (EvPredict batch) (snd run) ->
    predict model batch = Raise e ->
    fst run = Raise e /\ exists t, snd run = t ++ [EvPredict batch].

(** The shape of every prediction, and what the loop keeps true of
    [collect] once the first group is through. *)
Definition prediction_shape (model : Model) (patch_size padding_size : Z)
  : list Z :=
  [(patch_size + 2 * padding_size) * scale model;
   (patch_size + 2 * padding_size) * scale model; 3].

Definition collect_ready (model : Model) (patch_size padding_size : Z)
  (k : nat) (collect : option Batch) : Prop :=
  match k with
  | O => True
  | _ => exists c, collect = Some c /\ c <> [] /\
                   Forall (has_shape (prediction_shape model patch_size
                                                       padding_size)) c
  end.

(** ** Paths, as [pathlib] has them on POSIX

    A path is its anchor (whether it starts at the root) and its
    components; [Path(s)] drops empty components and the component ["."].
    (Two leading slashes, which POSIX keeps apart from one, are read as
    one.) *)
Record Path : Type := mk_Path { anchored : bool; parts : list string }.

Definition is_slash (c : ascii) : bool := Ascii.eqb c "/".

(** [s.split('/')] *)
Fixpoint split_slash (s : string) : list string :=
  match s with
  | EmptyString => [EmptyString]
  | String c s' =>
      if is_slash c then EmptyString :: split_slash s'
      else match split_slash s' with
           | cur :: rest => String c cur :: rest
           | [] => [String c EmptyString]
           end
  end.

Definition kept_component (c : string) : bool :=
  negb (String.eqb c "") && negb (String.eqb c ".").

(** [Path(s)] *)
Definition path_of_string (s : string) : Path :=
  mk_Path (match s with
           | String c _ => is_slash c
           | EmptyString => false
           end)
          (filter kept_component (split_slash s)).

(** [p / s]: an absolute [s] replaces [p]. *)
Definition path_join (p : Path) (s : string) : Path :=
  let q := path_of_string s in
  if anchored q then q else mk_Path (anchored p) (parts p ++ parts q).

(** [p.name]: the last component, empty for the root and for ["."]. *)
Definition path_name (p : Path) : string := last (parts p) "".

(** [p.parent] *)
Definition path_parent (p : Path) : Path :=
  mk_Path (anchored p) (removelast (parts p)).

(** [str(p)] *)
Definition path_str (p : Path) : string :=
  match anchored p, parts p with
  | false, [] => "."
  | false, l => String.concat "/" l
  | true, l => String "/" (String.concat "/" l)
  end.

(** [s.rfind(c)]: the index of the last [c] in [s], or -1. *)
Fixpoint rfind (c : ascii) (s : string) : Z :=
  match s with
  | EmptyString => -1
  | String a s' =>
      let r := rfind c s' in
      if 0 <=? r then r + 1 else if Ascii.eqb a c then 0 else -1
  end.

(** [p.suffix] on the name of [p] (Python 3.4 to 3.12):
    [i = name.rfind('.')], and [name[i:]] if [0 < i < len(name) - 1],
    else the empty string. *)
Definition suffix_of_name (name : string) : string :=
  let i := rfind "." name in
  if (0 <? i) && (i <? Z.of_nat (String.length name) - 1)
  then substring (Z.to_nat i) (String.length name - Z.to_nat i) name
  else "".

Definition path_suffix (p : Path) : string := suffix_of_name (path_name p).

(** ** Dictionaries and the values [yaml.load] returns

    A [dict] with string keys is the list of its items in insertion order;
    [d.update({k: v})] replaces the value of [k] where it stands or adds
    the item at the end. *)
#[warnings="-register-all"] Inductive yaml_value : Type :=
| YNone
| YInt (n : Z)
| YStr (s : string)
| YSeq (items : list yaml_value)
| YMap (items : list (string * yaml_value)).

Definition Dict : Type := list (string * yaml_value).

Fixpoint dict_get {V} (d : list (string * V)) (k : string) : option V :=
  match d with
  | [] => None
  | (k', v) :: d' => if String.eqb k' k then Some v else dict_get d' k
  end.

Fixpoint dict_set {V} (d : list (string * V)) (k : string) (v : V)
  : list (string * V) :=
  match d with
  | [] => [(k, v)]
  | (k', v') :: d' =>
      if String.eqb k' k then (k, v) :: d' else (k', v') :: dict_set d' k v
  end.

Definition AttributeError : exn := Raised "AttributeError" [].
Definition KeyError : exn := Raised "KeyError" [].

(** [conf.update({k: v})]: only a mapping has [update]. *)
Definition conf_update (conf : yaml_value) (k : string) (v : yaml_value)
  : Res Dict :=
  match conf with
  | YMap d => Ok (dict_set d k v)
  | _ => Raise AttributeError
  end.

(** ** The generator object given to [get_predictions]: [model.name],
    [model.params] and [model.model.load_weights]. *)
Record Generator : Type := mk_Generator {
  gen_name : string;
  gen_params : list (string * Z);
  load_weights : Path -> Res unit
}.

(** [np.sort] on strings: ascending, by character code. *)
Fixpoint insert_sorted (k : string) (l : list string) : list string :=
  match l with
  | [] => [k]
  | k' :: l' =>
      if String.leb k k' then k :: l else k' :: insert_sorted k l'
  end.

Definition np_sort (l : list string) : list string :=
  fold_right insert_sorted [] l.

Definition string_le (a b : string) : Prop := String.leb a b = true.

(** What an array of strings gives back for an item: the array pads its
    items with NUL characters to one width, and an item is read without
    its trailing NUL characters. *)
Fixpoint np_str (s : string) : string :=
  match s with
  | EmptyString => EmptyString
  | String c s' =>
      match np_str s', Ascii.eqb c Ascii.zero with
      | EmptyString, true => EmptyString
      | r, _ => String c r
      end
  end.

(** [np.sort(list(keys))]: the keys become an array of strings, which is
    sorted. *)
Definition np_sort_keys (keys : list string) : list string :=
  np_sort (map np_str keys).

(** [[f(x) for x in xs]] where [f] may raise. *)
Fixpoint map_res {X Y} (f : X -> Res Y) (xs : list X) : Res (list Y) :=
  match xs with
  | [] => Ok []
  | x :: xs' =>
      match f x with
      | Ok y => match map_res f xs' with
                | Ok ys => Ok (y :: ys)
                | Raise e => Raise e
                end
      | Raise e => Raise e
      end
  end.

(** [_make_basename], lines 98-104. *)
Definition _make_basename (model : Generator) : Res string :=
  match map_res
          (fun param =>
             match dict_get (gen_params model) param with
             | Some p => Ok (param ++ str p)%string
             | None => Raise KeyError
             end)
          (np_sort_keys (map fst (gen_params model))) with
  | Ok fields => Ok (String.concat "-" (gen_name model :: fields))
  | Raise e => Raise e
  end.

(** ** The host of the predictor: file system, logger set-up, YAML, clock

    None of these is defined in [predictor.py].  [clock n] is what the
    [n]-th call of [time()] returns and [format_float] is [str] on a
    float. *)
Record Host : Type := mk_Host {
  get_logger : Res unit;
  set_level : Z -> Res unit;
  warning : string -> Res unit;
  iterdir : Path -> Res (list Path);
  path_exists : Path -> Res bool;
  mkdir : Path -> Res unit;
  read_text : Path -> Res string;
  yaml_load : string -> Res yaml_value;
  yaml_dump : Dict -> Path -> Res unit;
  get_timestamp : Res string;
  clock : nat -> Q;
  format_float : Q -> string;
  imwrite : Path -> option ndarray -> Res unit;
  RDN : list (string * Z) -> Res Generator
}.

Inductive HostEvent : Type :=
| Inner (ev : Event)
| EvGetLogger
| EvSetLevel (level : Z)
| EvWarning (msg : string)
| EvIterdir (p : Path)
| EvExists (p : Path)
| EvMkdir (p : Path)
| EvLoadWeights (p : Path)
| EvReadText (p : Path)
| EvYamlLoad (text : string)
| EvYamlDump (conf : Dict) (p : Path)
| EvGetTimestamp
| EvTime (n : nat)
| EvImwrite (p : Path) (image : option ndarray)
| EvRDN (arch_params : list (string * Z)).

Definition HM (X : Type) : Type := (Res X * list HostEvent)%type.

Definition hret {X} (x : X) : HM X := (Ok x, []).

Definition hraise {X} (e : exn) : HM X := (Raise e, []).

Definition hlift {X} (r : Res X) : HM X := (r, []).

Definition hcall {X} (ev : HostEvent) (r : Res X) : HM X := (r, [ev]).

Definition hbind {X Y} (m : HM X) (f : X -> HM Y) : HM Y :=
  match m with
  | (Ok x, t) => let (r, t') := f x in (r, t ++ t')
  | (Raise e, t) => (Raise e, t)
  end.

(** A run of the inner code, its calls kept in their order. *)
Definition of_M {X} (m : M X) : HM X := (fst m, map Inner (snd m)).

Declare Scope host_scope.
Delimit Scope host_scope with host.
Notation "x <- m ;; k" := (hbind m (fun x => k))
  (at level 61, m at next level, right associativity) : host_scope.
Notation "m ;;; k" := (hbind m (fun _ => k))
  (at level 61, right associativity) : host_scope.

Fixpoint hfor_each {I S} (xs : list I) (body : I -> S -> HM S) (s : S)
  : HM S :=
  match xs with
  | [] => hret s
  | x :: xs' => hbind (body x s) (fun s' => hfor_each xs' body s')
  end.

(** The calls of [imageio.imwrite] in a trace, and the calls made by the
    inner code. *)
Fixpoint imwrite_calls (t : list HostEvent)
  : list (Path * option ndarray) :=
  match t with
  | [] => []
  | EvImwrite p image :: t' => (p, image) :: imwrite_calls t'
  | _ :: t' => imwrite_calls t'
  end.

Fixpoint inner_events (t : list HostEvent) : list Event :=
  match t with
  | [] => []
  | Inner ev :: t' => ev :: inner_events t'
  | _ :: t' => inner_events t'
  end.

(** The events of building a predictor: the logger, the listing of the
    input directory and the making of the output directory. *)
Definition is_init_event (ev : HostEvent) : bool :=
  match ev with
  | Inner (EvLog _ _) | EvGetLogger | EvSetLevel _ | EvIterdir _
  | EvExists _ | EvMkdir _ => true
  | _ => false
  end.

(** The events of the set-up of a run of [get_predictions]: logging, the
    weights, the session configuration, the output folder. *)
Definition is_setup_event (ev : HostEvent) : bool :=
  match ev with
  | Inner (EvLog _ _) | EvWarning _ | EvLoadWeights _ | EvExists _
  | EvMkdir _ | EvReadText _ | EvYamlLoad _ | EvYamlDump _ _
  | EvGetTimestamp => true
  | _ => false
  end.

(** Every event of the trace is of the given kind. *)
Definition all_events (ok : HostEvent -> bool) (t : list HostEvent) : Prop :=
  forallb ok t = true.

(** What a trace must not hold if no image is to be written and no model
    call made. *)
Definition inert (t : list HostEvent) : Prop :=
  Forall (fun c => snd c = None) (imwrite_calls t) /\
  predict_calls (inner_events t) = [].

(** ** The predictor object and its methods *)

Record Predictor : Type := mk_Predictor {
  input_dir : Path;
  data_name : string;
  output_dir : Path;
  extensions : list string;
  img_ls : list Path;
  model : option Generator;
  weights_path : option Path
}.

Definition newline : string := String (Ascii.ascii_of_nat 10) EmptyString.

(** [f.suffix in self.extensions] *)
Definition admitted (exts : list string) (f : Path) : bool :=
  existsb (String.eqb (path_suffix f)) exts.

Definition default_extensions : list string := [".jpeg"; ".jpg"; ".png"].

Definition no_images_message : string :=
  "No valid image files found (check config file).".

Definition default_model_name : string :=
  "weights/rdn-C6-D20-G64-G064-x2_ArtefactCancelling_epoch219.hdf5".

Definition default_arch_params : list (string * Z) :=
  [("C", 6); ("D", 20); ("G", 64); ("G0", 64); ("x", 2)].

(** The result of [parser.parse_args()]. *)
Record Args : Type := mk_Args {
  arg_input : string;
  arg_output : string;
  arg_model_name : string;
  arg_batch_size : Z;
  arg_patch_size : Z;
  arg_verbose : bool
}.

Section HostCode.

Variable G : Namespace.
Variable H : Host.

Local Open Scope host_scope.

Definition info (msg : string) : HM unit := of_M (logger_info G msg).

Definition error (msg : string) : HM unit := of_M (logger_error G msg).

Definition call_exists (p : Path) : HM bool :=
  hcall (EvExists p) (path_exists H p).

Definition call_mkdir (p : Path) : HM unit := hcall (EvMkdir p) (mkdir H p).

(** [Predictor.__init__], lines 61-77. *)
Definition __init__ (input_dir_arg output_dir_arg : string) (verbose : bool)
  : HM Predictor :=
  let input_dir := path_of_string input_dir_arg in
  let data_name := path_name input_dir in
  let output_dir := path_join (path_of_string output_dir_arg) data_name in
  hcall EvGetLogger (get_logger H) ;;;
  (if negb verbose then hcall (EvSetLevel 40) (set_level H 40)
   else hret tt) ;;;
  let extensions := default_extensions in
  files <- hcall (EvIterdir input_dir) (iterdir H input_dir) ;;
  let img_ls := filter (admitted extensions) files in
  (if len img_ls <? 1
   then error no_images_message ;;; hraise ValueError
   else hret tt) ;;;
  there <- call_exists output_dir ;;
  (if negb there
   then info ("Creating output directory:" ++ newline
                ++ path_str output_dir) ;;;
        call_mkdir output_dir
   else hret tt) ;;;
  hret (mk_Predictor input_dir data_name output_dir extensions img_ls
                     None None).

(** [_load_weights], lines 79-96.  [self.model] and [self.weights_path]
    are set by [get_predictions] before the call. *)
Definition _load_weights (self : Predictor) (generator : Generator)
  : HM Dict :=
  match weights_path self with
  | Some wp =>
      info ("Loaded weights from " ++ newline ++ " > " ++ path_str wp) ;;;
      hcall (EvLoadWeights wp) (load_weights generator wp) ;;;
      let session_config_path :=
        path_join (path_parent wp) "session_config.yml" in
      there <- call_exists session_config_path ;;
      conf <-
        (if there
         then text <- hcall (EvReadText session_config_path)
                            (read_text H session_config_path) ;;
              hcall (EvYamlLoad text) (yaml_load H text)
         else hcall
                (EvWarning "Could not find weights training configuration")
                (warning H "Could not find weights training configuration")
              ;;; hret (YMap [])) ;;
      hlift (conf_update conf "pre-trained-weights" (YStr (path_name wp)))
  | None =>
      error "Error: Weights path not specified (check config file)." ;;;
      hraise ValueError
  end.

(** One turn of the loop of [get_predictions], lines 122-129; [n] counts
    the calls of [time()] made so far. *)
Definition process_file (out_folder : Path) (img_path : Path) (n : nat)
  : HM nat :=
  let output_path := path_join out_folder (path_name img_path) in
  info ("Processing file" ++ newline ++ " > " ++ path_str img_path) ;;;
  hcall (EvTime n) (Ok tt) ;;;
  let start := clock H n in
  sr_img <- of_M (_forward_pass G (path_str img_path)) ;;
  hcall (EvTime (S n)) (Ok tt) ;;;
  let end_ := clock H (S n) in
  info ("Elapsed time: " ++ format_float H (end_ - start)%Q ++ "s") ;;;
  info ("Result in: " ++ path_str output_path) ;;;
  hcall (EvImwrite output_path sr_img) (imwrite H output_path sr_img) ;;;
  hret (S (S n)).

(** [get_predictions], lines 109-119: the weights are loaded, the output
    folder is named and made, the configuration is dumped. *)
Definition prepare_output (self : Predictor) (generator : Generator)
  (weights_path_arg : string) : HM Path :=
  let self :=
    mk_Predictor (input_dir self) (data_name self) (output_dir self)
                 (extensions self) (img_ls self) (Some generator)
                 (Some (path_of_string weights_path_arg)) in
  weights_conf <- _load_weights self generator ;;
  basename <- hlift (_make_basename generator) ;;
  timestamp <- hcall EvGetTimestamp (get_timestamp H) ;;
  let out_folder := path_join (path_join (output_dir self) basename)
                              timestamp in
  info ("Results in:" ++ newline ++ " > " ++ path_str out_folder) ;;;
  there <- call_exists out_folder ;;
  (if there
   then hcall (EvWarning "Directory exists, might overwrite files")
              (warning H "Directory exists, might overwrite files")
   else call_mkdir out_folder) ;;;
  (match weights_conf with
   | [] => hret tt
   | _ :: _ =>
       let target := path_join out_folder "weights_config.yml" in
       hcall (EvYamlDump weights_conf target)
             (yaml_dump H weights_conf target)
   end) ;;;
  hret out_folder.

(** [get_predictions], lines 106-129. *)
Definition get_predictions (self : Predictor) (generator : Generator)
  (weights_path_arg : string) : HM unit :=
  out_folder <- prepare_output self generator weights_path_arg ;;
  hfor_each (img_ls self) (process_file out_folder) 0%nat ;;;
  hret tt.

(** [main], lines 26-35, from the parsed arguments on.  In the [else]
    branch the name [self] is read before anything is logged or raised. *)
Definition main (args : Args) : HM unit :=
  pred <- __init__ (arg_input args) (arg_output args) (arg_verbose args) ;;
  rdn <-
    (if String.eqb (arg_model_name args) default_model_name
     then hcall (EvRDN default_arch_params) (RDN H default_arch_params)
     else
       hlift (name_self G) ;;;
       error ("Model " ++ arg_model_name args ++ " does not exist!") ;;;
       hraise ValueError) ;;
  get_predictions pred rdn (arg_model_name args).

End HostCode.

(** ** The values of the examples on the host code

    A directory listing, a host whose calls all return, and the variants
    of the namespace and of the model that the statements on edge cases
    are applied to. *)
Module Scenario.

(** What [imread] decodes: the files of [SpecModel] and a grey-level image
    of two axes. *)
Definition files (file_path : string) : Res ndarray :=
  if String.eqb file_path "grey.png" then Ok (SpecModel.blank [5; 5] 7%Q)
  else SpecModel.files file_path.

Definition world : Namespace :=
  mk_Namespace files (fun _ _ => Ok tt)
    SpecModel.process_array SpecModel.process_output
    SpecModel.split_image_into_overlapping_patches SpecModel.stich_together
    (Ok tt) (Ok SpecModel.doubling).

(** A model that returns no prediction. *)
Definition silent : Model := mk_Model (fun _ => Ok []) 2.

(** The entries of two directories: the working directory, with two image
    files, and [docs], with none. *)
Definition listing (p : Path) : Res (list Path) :=
  if String.eqb (path_str p) "."
  then Ok (map (path_join p) ["rgba.png"; "notes.txt"; "grey.png"])
  else if String.eqb (path_str p) "docs"
  then Ok (map (path_join p) ["notes.txt"; "cat.PNG"; ".png"])
  else Raise (Raised "FileNotFoundError" []).

(** A host with the given [imwrite] whose other calls all return: every
    [session_config.yml] exists and loads as [loaded], no other path
    exists. *)
Definition host_with (imwrite : Path -> option ndarray -> Res unit)
  (loaded : yaml_value) : Host :=
  mk_Host (Ok tt) (fun _ => Ok tt) (fun _ => Ok tt) listing
    (fun p => Ok (String.eqb (path_name p) "session_config.yml"))
    (fun _ => Ok tt) (fun _ => Ok "lr_patch_size: 32")
    (fun _ => Ok loaded) (fun _ _ => Ok tt) (Ok "2019-03-01_1200")
    (fun n => inject_Z (Z.of_nat n)) (fun _ => "0.0") imwrite
    (fun arch_params =>
       Ok (mk_Generator "rdn" arch_params (fun _ => Ok tt))).

(** The host whose [imwrite] takes whatever it is given, and the host
    whose [imwrite] refuses [None] with a [ValueError], as [imageio]'s
    does. *)
Definition host (loaded : yaml_value) : Host :=
  host_with (fun _ _ => Ok tt) loaded.

Definition strict_host (loaded : yaml_value) : Host :=
  host_with (fun _ image =>
               match image with
               | Some _ => Ok tt
               | None => Raise ValueError
               end)
            loaded.

Definition session : yaml_value := YMap [("lr_patch_size", YInt 32)].

Definition rdn : Generator :=
  mk_Generator "rdn" default_arch_params (fun _ => Ok tt).

(** A predictor on the working directory whose one image has 4 channels. *)
Definition predictor : Predictor :=
  mk_Predictor (path_of_string ".") "" (path_of_string "out")
    default_extensions [path_of_string "rgba.png"] None None.

(** A predictor whose first image has 3 channels. *)
Definition rgb_predictor : Predictor :=
  mk_Predictor (path_of_string ".") "" (path_of_string "out")
    default_extensions [path_of_string "small.png"; path_of_string "rgba.png"]
    None None.

Definition weights : Path := path_of_string default_model_name.

(** The same predictor once [get_predictions] has set its model and its
    weights path. *)
Definition loaded_predictor : Predictor :=
  mk_Predictor (path_of_string ".") "" (path_of_string "out")
    default_extensions [path_of_string "rgba.png"] (Some rdn)
    (Some weights).

Definition other_model : Args :=
  mk_Args "." "out" "weights/other.hdf5" 10 0 true.

(** A 4 x 4 image, its form in the model's domain and its 4 patches of
    size 2 with a padding of 1. *)
Definition img : ndarray := SpecModel.gradient 4 4.

Definition lr : ndarray := SpecModel.to_model_domain img.

Definition patches : Batch := SpecModel.patches_of lr 2 1.

End Scenario.

(** * Properties *)

(** ** The monad *)

Lemma bind_Ok {X Y} (x : X) (t : list Event) (f : X -> M Y) :
  bind (Ok x, t) f = (fst (f x), t ++ snd (f x)).
Proof. unfold bind. destruct (f x); reflexivity. Qed.

Lemma bind_Raise {X Y} (e : exn) (t : list Event) (f : X -> M Y) :
  bind (Raise e, t) f = (Raise e, t).
Proof. reflexivity. Qed.

Lemma fst_bind {X Y} (m : M X) (f : X -> M Y) :
  fst (bind m f) =
  match fst m with Ok x => fst (f x) | Raise e => Raise e end.
Proof. destruct m as [[x|e] t]; [rewrite bind_Ok|]; reflexivity. Qed.

Lemma fst_bind_Ok {X Y} (m : M X) (f : X -> M Y) (x : X) :
  fst m = Ok x -> fst (bind m f) = fst (f x).
Proof. intros H. now rewrite fst_bind, H. Qed.

Lemma bind_lift_Ok {X Y} (x : X) (f : X -> M Y) :
  bind (lift (Ok x)) f = f x.
Proof. unfold lift. rewrite bind_Ok. now destruct (f x). Qed.

Lemma bind_call_Ok {X Y} (ev : Event) (x : X) (f : X -> M Y) :
  bind (call ev (Ok x)) f = (fst (f x), ev :: snd (f x)).
Proof. unfold call. now rewrite bind_Ok. Qed.

Lemma bind_call_Raise {X Y} (ev : Event) (e : exn) (f : X -> M Y) :
  bind (call ev (@Raise X e)) f = (Raise e, [ev]).
Proof. reflexivity. Qed.

Lemma snd_bind {X Y} (m : M X) (f : X -> M Y) :
  snd (bind m f) =
  match fst m with Ok x => snd m ++ snd (f x) | Raise e => snd m end.
Proof. destruct m as [[x|e] t]; [rewrite bind_Ok|]; reflexivity. Qed.

Lemma bind_Ok_inv {X Y} (m : M X) (f : X -> M Y) (y : Y) (t : list Event) :
  bind m f = (Ok y, t) ->
  exists x t1 t2, m = (Ok x, t1) /\ f x = (Ok y, t2) /\ t = t1 ++ t2.
Proof.
  destruct m as [[x|e] t1]; [|discriminate].
  rewrite bind_Ok. destruct (f x) as [r t2] eqn:E. cbn.
  intros [= -> <-]. now exists x, t1, t2.
Qed.

Lemma fst_bind_Ok_inv {X Y} (m : M X) (f : X -> M Y) (y : Y) :
  fst (bind m f) = Ok y ->
  exists x, fst m = Ok x /\ fst (f x) = Ok y.
Proof.
  rewrite fst_bind. destruct (fst m) as [x|e]; [|discriminate].
  intros H. now exists x.
Qed.

Lemma predict_calls_app (t1 t2 : list Event) :
  predict_calls (t1 ++ t2) = predict_calls t1 ++ predict_calls t2.
Proof.
  induction t1 as [|ev t1 IH]; [reflexivity|].
  destruct ev; cbn; now rewrite ?IH.
Qed.

Lemma stitch_calls_app (t1 t2 : list Event) :
  stitch_calls (t1 ++ t2) = stitch_calls t1 ++ stitch_calls t2.
Proof.
  induction t1 as [|ev t1 IH]; [reflexivity|].
  destruct ev; cbn; now rewrite ?IH.
Qed.

Lemma split_calls_app (t1 t2 : list Event) :
  split_calls (t1 ++ t2) = split_calls t1 ++ split_calls t2.
Proof.
  induction t1 as [|ev t1 IH]; [reflexivity|].
  destruct ev; cbn; now rewrite ?IH.
Qed.

(** ** The single-pass path *)

Section SinglePass.

Variable G : Namespace.
Variable model : Model.
Variable input_image_array : ndarray.

(** C10.  With [by_patch_of_size] unset the run of [_predict], its result
    and the calls it makes, is the same for any two choices of
    [batch_size] and [padding_size]. *)
Theorem single_pass_ignores_batch_and_padding
  (batch_size batch_size' padding_size padding_size' : Z) :
  _predict G model input_image_array None batch_size padding_size =
  _predict G model input_image_array None batch_size' padding_size'.
Proof. reflexivity. Qed.

Lemma single_pass_trace :
  let t := snd (single_pass G model input_image_array) in
  split_calls t = [] /\ stitch_calls t = [] /\
  (List.length (predict_calls t) <= 1)%nat.
Proof.
  unfold single_pass, call_process_array, call_predict, lift, call.
  destruct (process_array G input_image_array true) as [lr|e]; cbn;
    [|repeat split; lia].
  destruct (predict model lr) as [out|e]; cbn; [|repeat split; lia].
  destruct (getitem out 0); cbn; repeat split; lia.
Qed.

(** C8.  With [by_patch_of_size] unset, [_predict] never calls the
    splitter or the stitcher; once the forward codec has returned the batch
    of one [lr_img], the model is called exactly once, on [lr_img]; and
    when that call returns, the run is: forward codec, the model call,
    reverse codec on item 0 of the output, whose result is the result of
    [_predict]. *)
Theorem unset_patch_size_is_one_direct_model_call
  (batch_size padding_size : Z) :
  let run := _predict G model input_image_array None batch_size padding_size in
  split_calls (snd run) = [] /\
  stitch_calls (snd run) = [] /\
  (forall lr_img,
     process_array G input_image_array true = Ok lr_img ->
     predict_calls (snd run) = [lr_img] /\
     exists rest,
       snd run = EvProcessArray input_image_array true
                   :: EvPredict lr_img :: rest) /\
  (forall lr_img out sr_img,
     process_array G input_image_array true = Ok lr_img ->
     predict model lr_img = Ok out ->
     getitem out 0 = Ok sr_img ->
     run = (process_output G sr_img,
            [EvProcessArray input_image_array true;
             EvPredict lr_img;
             EvProcessOutput sr_img])).
Proof.
  cbn zeta.
  unfold _predict, single_pass, call_process_array, call_predict,
    call_process_output, lift.
  split; [|split; [|split]].
  - destruct (process_array G input_image_array true) as [lr|e];
      [rewrite bind_call_Ok|reflexivity].
    destruct (predict model lr) as [out|e];
      [rewrite bind_call_Ok|reflexivity].
    now destruct (getitem out 0).
  - destruct (process_array G input_image_array true) as [lr|e];
      [rewrite bind_call_Ok|reflexivity].
    destruct (predict model lr) as [out|e];
      [rewrite bind_call_Ok|reflexivity].
    now destruct (getitem out 0).
  - intros lr_img Hpa. rewrite Hpa, bind_call_Ok.
    destruct (predict model lr_img) as [out|e];
      [rewrite bind_call_Ok|split; [reflexivity|now eexists]].
    destruct (getitem out 0); (split; [reflexivity|now eexists]).
  - intros lr_img out sr_img Hpa Hp Hitem.
    rewrite Hpa, bind_call_Ok, Hp, bind_call_Ok, Hitem. reflexivity.
Qed.

End SinglePass.

(** ** [_forward_pass] *)

Section ForwardPass.

Variable G : Namespace.

Lemma forward_pass_not_three_channels (file_path : string)
  (lr_img : ndarray) (channels : Z) :
  imread G file_path = Ok lr_img ->
  getitem (shape lr_img) 2 = Ok channels ->
  channels <> 3 ->
  let msg := (file_path ++ " is not an image with 3 channels.")%string in
  _forward_pass G file_path =
  (match logger G ERROR msg with Ok _ => Ok None | Raise e => Raise e end,
   [EvImread file_path; EvLog ERROR msg]).
Proof.
  intros Hread Hch Hne. cbn zeta.
  unfold _forward_pass, call_imread, logger_error, lift, call.
  rewrite Hread. cbn. rewrite Hch. cbn.
  apply Z.eqb_neq in Hne. rewrite Hne.
  destruct (logger G ERROR _); reflexivity.
Qed.

Lemma forward_pass_three_channels (file_path : string) (lr_img : ndarray) :
  imread G file_path = Ok lr_img ->
  getitem (shape lr_img) 2 = Ok 3 ->
  _forward_pass G file_path = (Raise TypeError, [EvImread file_path]).
Proof.
  intros Hread Hch.
  unfold _forward_pass, call_imread, lift, call.
  rewrite Hread. cbn. rewrite Hch. reflexivity.
Qed.

End ForwardPass.

(** ** Sequences, slices and [range] *)

Lemma len_nonneg {X} (l : list X) : 0 <= len l.
Proof. unfold len. lia. Qed.

Lemma len_app {X} (l1 l2 : list X) : len (l1 ++ l2) = len l1 + len l2.
Proof. unfold len. rewrite length_app. lia. Qed.

Lemma len_nil_iff {X} (l : list X) : len l = 0 <-> l = [].
Proof.
  unfold len. destruct l; cbn [List.length]; split; intros H;
    try reflexivity; try discriminate; lia.
Qed.

Lemma getitem_nth_error {X} (l : list X) (i : Z) :
  0 <= i ->
  getitem l i = match nth_error l (Z.to_nat i) with
                | Some x => Ok x
                | None => Raise IndexError
                end.
Proof.
  intros Hi. unfold getitem.
  destruct (i <? 0) eqn:E; [apply Z.ltb_lt in E; lia|].
  rewrite E. cbn [orb].
  destruct (len l <=? i) eqn:E'; [|reflexivity].
  apply Z.leb_le in E'. unfold len in E'.
  assert (H : nth_error l (Z.to_nat i) = None)
    by (apply nth_error_None; lia).
  now rewrite H.
Qed.

Lemma slice_window {X} (l : list X) (a w : Z) :
  0 <= a <= len l -> 0 < w ->
  slice l a (a + w) =
  firstn (Z.to_nat w) (skipn (Z.to_nat a) l).
Proof.
  intros Ha Hw. unfold slice, clamp_index.
  destruct (a <? 0) eqn:E1; [apply Z.ltb_lt in E1; lia|].
  destruct (a + w <? 0) eqn:E2; [apply Z.ltb_lt in E2; lia|].
  rewrite (Z.min_l a) by lia.
  destruct (Z.min_spec (a + w) (len l)) as [[Hlt ->]|[Hge ->]].
  - f_equal. lia.
  - assert (Hs : List.length (skipn (Z.to_nat a) l)
                 = Z.to_nat (len l - a))
      by (rewrite length_skipn; unfold len; lia).
    rewrite !firstn_all2; trivial; rewrite Hs; lia.
Qed.

Lemma len_slice_window {X} (l : list X) (a w : Z) :
  0 <= a <= len l -> 0 < w ->
  len (slice l a (a + w)) = Z.min w (len l - a).
Proof.
  intros Ha Hw. rewrite slice_window by assumption.
  unfold len in *. rewrite length_firstn, length_skipn. lia.
Qed.

Lemma In_firstn {X} (n : nat) (l : list X) (x : X) :
  In x (firstn n l) -> In x l.
Proof.
  revert l. induction n as [|n IH]; intros [|y l]; cbn; try tauto.
  intros [H|H]; auto.
Qed.

Lemma In_skipn {X} (n : nat) (l : list X) (x : X) :
  In x (skipn n l) -> In x l.
Proof.
  revert l. induction n as [|n IH]; intros [|y l]; cbn; auto.
Qed.

Lemma In_slice {X} (l : list X) (i j : Z) (x : X) :
  In x (slice l i j) -> In x l.
Proof.
  unfold slice. intros H. apply In_firstn in H. now apply In_skipn in H.
Qed.

Lemma Forall_slice {X} (P : X -> Prop) (l : list X) (i j : Z) :
  Forall P l -> Forall P (slice l i j).
Proof.
  rewrite !Forall_forall. intros H x Hx. apply H. eapply In_slice, Hx.
Qed.

Lemma py_range_groups (n batch_size : Z) :
  0 < batch_size ->
  py_range 0 n batch_size =
  Ok (map (fun k => Z.of_nat k * batch_size)
          (seq 0 (group_count n batch_size))).
Proof.
  intros Hb. unfold py_range, range_count, group_count.
  destruct (batch_size =? 0) eqn:E; [apply Z.eqb_eq in E; lia|].
  destruct (0 <? batch_size) eqn:E'; [|apply Z.ltb_ge in E'; lia].
  f_equal. replace (n - 0 + batch_size - 1) with (n + batch_size - 1) by lia.
  replace (Z.to_nat (Z.max 0 ((n + batch_size - 1) / batch_size)))
    with (Z.to_nat ((n + batch_size - 1) / batch_size)) by lia.
  apply map_ext. intros k. lia.
Qed.

Lemma group_start_in_range (n batch_size : Z) (k : nat) :
  0 < batch_size -> (k < group_count n batch_size)%nat ->
  0 <= Z.of_nat k * batch_size < n.
Proof.
  unfold group_count. intros Hb Hk.
  pose proof (Z.mul_div_le (n + batch_size - 1) batch_size Hb).
  nia.
Qed.

Lemma group_count_covers (n batch_size : Z) :
  0 < batch_size -> 0 <= n ->
  n <= Z.of_nat (group_count n batch_size) * batch_size.
Proof.
  unfold group_count. intros Hb Hn.
  pose proof (Z.div_pos (n + batch_size - 1) batch_size ltac:(lia) Hb).
  rewrite Z2Nat.id by assumption.
  pose proof (Z.mod_pos_bound (n + batch_size - 1) batch_size Hb).
  pose proof (Z.div_mod (n + batch_size - 1) batch_size ltac:(lia)).
  nia.
Qed.

Lemma group_count_pos (n batch_size : Z) :
  0 < batch_size -> 0 < n -> (0 < group_count n batch_size)%nat.
Proof.
  intros Hb Hn. pose proof (group_count_covers n batch_size Hb ltac:(lia)).
  destruct (group_count n batch_size); lia.
Qed.

(** The primitives on the values Python gives. *)
Example range_examples :
  py_range 0 4 2 = Ok [0; 2] /\ py_range 0 3 2 = Ok [0; 2] /\
  py_range 0 0 2 = Ok [] /\ py_range 0 7 10 = Ok [0] /\
  py_range 0 3 0 = Raise ValueError /\ py_range 0 3 (-1) = Ok [] /\
  py_range 5 0 (-2) = Ok [5; 3; 1].
Proof. repeat split; reflexivity. Qed.

Example slice_examples :
  slice [10; 11; 12] 0 2 = [10; 11] /\ slice [10; 11; 12] 2 4 = [12] /\
  slice [10; 11; 12] 3 5 = [] /\ slice [10; 11; 12] (-2) 10 = [11; 12].
Proof. repeat split; reflexivity. Qed.

Example getitem_examples :
  getitem [10; 11; 12] 2 = Ok 12 /\ getitem [10; 11; 12] (-1) = Ok 12 /\
  getitem [10; 11] 2 = Raise IndexError /\
  getitem (@nil Z) 0 = Raise IndexError.
Proof. repeat split; reflexivity. Qed.

Example str_examples :
  str 0 = "0" /\ str 256 = "256" /\ str (-2) = "-2".
Proof. repeat split; reflexivity. Qed.

Example scaled_shape_examples :
  scaled_shape [512; 512; 3] 2 = [1024; 1024; 3] /\
  scaled_shape [300; 300; 4] 2 = [600; 600; 3] /\
  scaled_shape [4; 4; 3] (2 ^ 62) = [0; 0; 3] /\
  scaled_shape [3; 3; 3] (2 ^ 62) = [- 2 ^ 62; - 2 ^ 62; 3].
Proof. repeat split; vm_compute; reflexivity. Qed.

(** ** Loops *)

(** The invariant rule of [for_each], for a run that completes. *)
Lemma for_each_invariant {I S} (Inv : nat -> S -> Prop) (xs : list I)
  (body : I -> S -> M S) (d : I) :
  (forall j s s' t,
     (j < List.length xs)%nat -> Inv j s ->
     body (nth j xs d) s = (Ok s', t) -> Inv (Datatypes.S j) s') ->
  forall s0 s' t,
    Inv 0%nat s0 -> for_each xs body s0 = (Ok s', t) ->
    Inv (List.length xs) s'.
Proof.
  revert Inv. induction xs as [|x xs IH]; intros Inv Hstep s0 s' t H0 Hrun.
  - cbn in Hrun. now injection Hrun as <- _.
  - cbn [for_each] in Hrun.
    apply bind_Ok_inv in Hrun as (s1 & t1 & t2 & Hb & Hrest & _).
    apply (IH (fun j => Inv (Datatypes.S j))) with (s0 := s1) (t := t2);
      trivial.
    + intros j s s2 t' Hj Hinv Hbody.
      apply (Hstep (Datatypes.S j) s s2 t'); cbn; trivial; lia.
    + apply (Hstep 0%nat s0 s1 t1); cbn; trivial; lia.
Qed.

(** The same rule when every step under the invariant returns: the loop
    returns. *)
Lemma for_each_total {I S} (Inv : nat -> S -> Prop) (xs : list I)
  (body : I -> S -> M S) (d : I) :
  (forall j s,
     (j < List.length xs)%nat -> Inv j s ->
     exists s' t, body (nth j xs d) s = (Ok s', t) /\ Inv (Datatypes.S j) s') ->
  forall s0,
    Inv 0%nat s0 ->
    exists s' t, for_each xs body s0 = (Ok s', t) /\ Inv (List.length xs) s'.
Proof.
  revert Inv. induction xs as [|x xs IH]; intros Inv Hstep s0 H0.
  - exists s0, []. now split.
  - destruct (Hstep 0%nat s0) as (s1 & t1 & Hb & H1); cbn; trivial; [lia|].
    destruct (IH (fun j => Inv (Datatypes.S j))) with (s0 := s1)
      as (s' & t2 & Hrest & Hinv); trivial.
    + intros j s Hj Hinv. apply (Hstep (Datatypes.S j) s); cbn; trivial; lia.
    + exists s', (t1 ++ t2). split; trivial.
      cbn [for_each]. cbn in Hb. rewrite Hb, bind_Ok, Hrest. reflexivity.
Qed.

Lemma nth_group_start (batch_size : Z) (count j : nat) (d : Z) :
  (j < count)%nat ->
  nth j (map (fun k => Z.of_nat k * batch_size) (seq 0 count)) d
  = Z.of_nat j * batch_size.
Proof.
  intros Hj. set (f := fun k => Z.of_nat k * batch_size).
  rewrite nth_indep with (d' := f 0%nat)
    by (rewrite length_map, length_seq; exact Hj).
  rewrite (map_nth f), seq_nth by exact Hj. reflexivity.
Qed.

(** ** The tiled path *)

Ltac inv_bind H :=
  let x := fresh "x" in
  let t1 := fresh "t" in
  let t2 := fresh "t" in
  let H1 := fresh H in
  apply bind_Ok_inv in H as (x & t1 & t2 & H1 & H & ->).

Section BatchLoop.

Variable G : Namespace.
Variable model : Model.
Variable input_image_array : ndarray.
Variable patches : Batch.
Variable p_shape : list Z.
Variables batch_size padding_size : Z.

Lemma predict_group_Ok_inv (i : Z) (collect : option Batch)
  (collect' : Batch) (t : list Event) :
  predict_group model patches batch_size i collect = (Ok collect', t) ->
  exists out,
    predict model (slice patches i (i + batch_size)) = Ok out /\
    ((i = 0 /\ collect' = out) \/
     (i <> 0 /\ exists c, collect = Some c /\ collect' = c ++ out)).
Proof.
  unfold predict_group, call_predict, call. intros H.
  inv_bind H. injection H0 as Hp _. exists x. split; trivial.
  destruct (i =? 0) eqn:E.
  - apply Z.eqb_eq in E. injection H as <- _. now left.
  - apply Z.eqb_neq in E. right. split; trivial.
    destruct collect as [c|]; [|discriminate].
    unfold lift, np_append in H.
    destruct (forallb _ c); [|discriminate].
    injection H as <- _. now exists c.
Qed.

Lemma loop_body_Ok_inv (i : Z) (collect collect' : option Batch)
  (t : list Event) :
  loop_body G model input_image_array patches p_shape batch_size
            padding_size i collect = (Ok collect', t) ->
  exists out,
    predict model (slice patches i (i + batch_size)) = Ok out /\
    ((i = 0 /\ collect' = Some out) \/
     (i <> 0 /\ exists c, collect = Some c /\ collect' = Some (c ++ out))).
Proof.
  unfold loop_body. intros H.
  inv_bind H. inv_bind H. inv_bind H. inv_bind H. inv_bind H.
  injection H as <- _.
  match goal with
  | Hg : predict_group _ _ _ _ _ = _ |- _ =>
      apply predict_group_Ok_inv in Hg as (out & Hp & Hc)
  end.
  exists out. split; trivial.
  destruct Hc as [[-> ->]|(Hi & c & -> & ->)]; [now left|right].
  split; trivial. now exists c.
Qed.

End BatchLoop.

Section BatchOrder.

Variable G : Namespace.
Variable model : Model.
Variable input_image_array : ndarray.
Variable patches : Batch.
Variable p_shape : list Z.
Variables batch_size padding_size : Z.

Hypothesis batch_size_pos : 1 <= batch_size.

(** The model contract of section 6: as many outputs as inputs. *)
Hypothesis same_length :
  forall batch out, predict model batch = Ok out -> len out = len batch.

Lemma collected_step (j : nat) (s s' : option Batch) (t : list Event) :
  (j < group_count (len patches) batch_size)%nat ->
  collected model patches batch_size j s ->
  loop_body G model input_image_array patches p_shape batch_size
            padding_size (Z.of_nat j * batch_size) s = (Ok s', t) ->
  collected model patches batch_size (S j) s'.
Proof.
  intros Hj Hinv Hbody.
  assert (Hpos : 0 < batch_size) by lia.
  pose proof (group_start_in_range _ _ _ Hpos Hj) as Hstart.
  apply loop_body_Ok_inv in Hbody as (out & Hp & Hcase).
  pose proof (same_length _ _ Hp) as Hlen.
  rewrite len_slice_window in Hlen by lia.
  destruct Hcase as [[H0 ->]|(Hne & c & -> & ->)].
  - (* the first group *)
    assert (j = 0%nat) by nia. subst j. cbn [collected].
    exists out. split; [reflexivity|]. split; [lia|].
    intros i Hi. exists out.
    assert (Hq : i / batch_size = 0) by (apply Z.div_small; lia).
    rewrite Hq, Z.mod_small by lia. split; [exact Hp|reflexivity].
  - (* a later group, appended *)
    destruct j as [|j]; [lia|].
    cbn [collected] in Hinv. destruct Hinv as (c' & [= <-] & Hc & Hnth).
    rewrite Z.min_l in Hc by lia.
    cbn [collected]. exists (c ++ out). split; [reflexivity|].
    split; [rewrite len_app; lia|].
    intros i Hi. rewrite len_app in Hi.
    destruct (Z.lt_ge_cases i (len c)) as [Hlt|Hge].
    + destruct (Hnth i ltac:(lia)) as (o & Ho & Hn).
      exists o. split; [exact Ho|].
      rewrite nth_error_app1 by (unfold len in Hlt; lia). exact Hn.
    + assert (Hq : i / batch_size = Z.of_nat (S j)).
      { symmetry. apply Z.div_unique with (r := i - len c); lia. }
      assert (Hr : i mod batch_size = i - len c).
      { symmetry. apply Z.mod_unique with (q := Z.of_nat (S j)); lia. }
      exists out. rewrite Hq, Hr. split; [exact Hp|].
      rewrite nth_error_app2 by (unfold len in Hge; lia).
      f_equal. unfold len in *. lia.
Qed.

Lemma batch_loop_collects (collect : Batch) (t : list Event) :
  batch_loop G model input_image_array patches p_shape batch_size
             padding_size = (Ok (Some collect), t) ->
  len collect = len patches /\
  forall i, 0 <= i < len patches ->
    exists out,
      predict model
        (slice patches (i / batch_size * batch_size)
               (i / batch_size * batch_size + batch_size)) = Ok out /\
      len out = Z.min batch_size
                  (len patches - i / batch_size * batch_size) /\
      getitem collect i = getitem out (i mod batch_size).
Proof.
  unfold batch_loop. rewrite py_range_groups by lia.
  unfold lift. rewrite bind_Ok. cbn [app]. rewrite <- surjective_pairing.
  intros Hrun.
  pose proof Hrun as Hinv.
  apply for_each_invariant
    with (Inv := collected model patches batch_size) (d := 0) in Hinv.
  - rewrite length_map, length_seq in Hinv.
    destruct (group_count (len patches) batch_size) as [|k] eqn:Hk.
    + cbn in Hrun. discriminate.
    + cbn [collected] in Hinv. destruct Hinv as (c & [= <-] & Hlen & Hnth).
      assert (Hpos : 0 < batch_size) by lia.
      pose proof (group_count_covers (len patches) batch_size
                    Hpos (len_nonneg _)) as Hcov.
      rewrite Hk in Hcov. rewrite Z.min_r in Hlen by lia.
      split; [exact Hlen|]. intros i Hi.
      destruct (Hnth i ltac:(lia)) as (out & Hp & Hn).
      exists out. split; [exact Hp|].
      pose proof (Z.mod_pos_bound i batch_size ltac:(lia)) as Hm.
      pose proof (Z.mul_div_le i batch_size ltac:(lia)) as Hd.
      pose proof (Z.div_pos i batch_size ltac:(lia) ltac:(lia)) as Hq.
      split.
      * rewrite (same_length _ _ Hp), len_slice_window by nia. reflexivity.
      * rewrite !getitem_nth_error by lia. now rewrite Hn.
  - intros j s s' t' Hj Hs Hbody.
    rewrite length_map, length_seq in Hj.
    rewrite nth_group_start in Hbody by exact Hj.
    eapply collected_step; eauto.
  - exact I.
Qed.

(** For a model that maps its groups item by item the loop returns the
    image of the patches, in their order. *)
Lemma itemwise_model_maps_patches (f : ndarray -> ndarray)
  (collect : Batch) (t : list Event) :
  (forall batch, predict model batch = Ok (map f batch)) ->
  batch_loop G model input_image_array patches p_shape batch_size
             padding_size = (Ok (Some collect), t) ->
  collect = map f patches.
Proof.
  intros Hf Hrun.
  apply batch_loop_collects in Hrun as (Hlen & Hnth).
  apply nth_error_ext. intros n.
  destruct (Nat.lt_ge_cases n (List.length patches)) as [Hlt|Hge].
  - destruct (Hnth (Z.of_nat n)) as (out & Hp & _ & Hg);
      [unfold len; lia|].
    rewrite Hf in Hp. injection Hp as <-.
    pose proof (Z.mod_pos_bound (Z.of_nat n) batch_size ltac:(lia)) as Hm.
    pose proof (Z.mul_div_le (Z.of_nat n) batch_size ltac:(lia)) as Hd.
    pose proof (Z.div_pos (Z.of_nat n) batch_size ltac:(lia) ltac:(lia)).
    rewrite !getitem_nth_error, Nat2Z.id in Hg by lia.
    rewrite slice_window in Hg by (unfold len; lia).
    rewrite !nth_error_map in *.
    rewrite nth_error_firstn in Hg.
    destruct (Z.to_nat (Z.of_nat n mod batch_size) <? Z.to_nat batch_size)%nat
      eqn:E; [|apply Nat.ltb_ge in E; lia].
    rewrite nth_error_skipn in Hg.
    replace (Z.to_nat (Z.of_nat n / batch_size * batch_size)
             + Z.to_nat (Z.of_nat n mod batch_size))%nat with n in Hg.
    + destruct (nth_error collect n), (nth_error patches n); cbn in *;
        congruence.
    + pose proof (Z.div_mod (Z.of_nat n) batch_size ltac:(lia)). nia.
  - rewrite (proj2 (nth_error_None _ _)) by (unfold len in Hlen; lia).
    symmetry. apply nth_error_None. rewrite length_map. lia.
Qed.

End BatchOrder.

(** ** One stitch after the loop gives the same image *)

Section StitchOnce.

Variable G : Namespace.
Variable model : Model.
Variable input_image_array : ndarray.

Lemma loop_body_once_of_loop_body (patches : Batch) (p_shape : list Z)
  (batch_size padding_size i : Z) (s s' : option Batch) :
  fst (loop_body G model input_image_array patches p_shape batch_size
                 padding_size i s) = Ok s' ->
  fst (loop_body_once G model patches batch_size i s) = Ok s'.
Proof.
  unfold loop_body, loop_body_once. cbv beta iota; rewrite ?fst_bind.
  destruct (fst (lift (name_self G))); [|discriminate].
  cbv beta iota; rewrite ?fst_bind.
  destruct (fst (logger_info G _)); [|discriminate].
  cbv beta iota; rewrite ?fst_bind.
  destruct (fst (predict_group model patches batch_size i s)) as [c|];
    [|discriminate].
  cbv beta iota; rewrite ?fst_bind.
  destruct (fst (stitch_collected G model input_image_array p_shape
                                  padding_size c)); [|discriminate].
  cbv beta iota; rewrite ?fst_bind.
  destruct (fst (call_process_output G _)); [|discriminate].
  trivial.
Qed.

Lemma for_each_once_of_loop (patches : Batch) (p_shape : list Z)
  (batch_size padding_size : Z) (indices : list Z) (s s' : option Batch) :
  fst (for_each indices
         (loop_body G model input_image_array patches p_shape batch_size
                    padding_size) s) = Ok s' ->
  fst (for_each indices (loop_body_once G model patches batch_size) s)
  = Ok s'.
Proof.
  revert s. induction indices as [|i indices IH]; intros s; [trivial|].
  cbn [for_each]. intros H.
  apply fst_bind_Ok_inv in H as (s1 & Hbody & Hrest).
  apply loop_body_once_of_loop_body in Hbody.
  rewrite fst_bind, Hbody. now apply IH.
Qed.

Lemma tiled_stitch_once_of_tiled (p batch_size padding_size : Z)
  (sr_img : ndarray) :
  fst (tiled G model input_image_array p batch_size padding_size)
  = Ok sr_img ->
  fst (tiled_stitch_once G model input_image_array p batch_size
                         padding_size) = Ok sr_img.
Proof.
  unfold tiled, tiled_stitch_once. cbv beta iota; rewrite ?fst_bind.
  destruct (fst (lift (name_self G))); [|discriminate].
  cbv beta iota; rewrite ?fst_bind.
  destruct (fst (logger_info G _)); [|discriminate].
  cbv beta iota; rewrite ?fst_bind.
  destruct (fst (call_process_array G input_image_array false)) as [lr|];
    [|discriminate].
  cbv beta iota; rewrite ?fst_bind.
  destruct (fst (call_split G lr p padding_size)) as [[patches p_shape]|];
    [|discriminate].
  cbv beta iota; rewrite ?fst_bind.
  destruct (fst (lift (name_self G))); [|discriminate].
  cbv beta iota; rewrite ?fst_bind.
  destruct (fst (logger_info G _)); [|discriminate].
  cbv beta iota; rewrite ?fst_bind.
  unfold batch_loop, batch_loop_once. cbv beta iota; rewrite ?fst_bind.
  destruct (fst (lift (py_range 0 (len patches) batch_size)))
    as [indices|]; [|discriminate].
  cbv beta iota.
  destruct (fst (for_each indices (loop_body _ _ _ _ _ _ _) None))
    as [collect|] eqn:Hloop; [|discriminate].
  apply for_each_once_of_loop in Hloop. rewrite Hloop. trivial.
Qed.

Lemma fst_for_each_ext {I S} (xs : list I) (b1 b2 : I -> S -> M S) :
  (forall x s, fst (b1 x s) = fst (b2 x s)) ->
  forall s, fst (for_each xs b1 s) = fst (for_each xs b2 s).
Proof.
  intros Hb. induction xs as [|x xs IH]; intros s; [reflexivity|].
  cbn [for_each]. rewrite !fst_bind, Hb.
  destruct (fst (b2 x s)); [apply IH|reflexivity].
Qed.

(** Whenever a run of [_predict] returns an array (on the tiled path this
    takes a name [self] that resolves), the variant that stitches once,
    after the loop has completed, returns that same array: what is
    stitched and processed inside the loop does not reach the result. *)
Lemma predict_equals_stitch_once (by_patch_of_size : option Z)
  (batch_size padding_size : Z) (sr_img : ndarray) :
  fst (_predict G model input_image_array by_patch_of_size batch_size
                padding_size) = Ok sr_img ->
  fst (_predict_stitch_once G model input_image_array by_patch_of_size
                            batch_size padding_size) = Ok sr_img.
Proof.
  unfold _predict, _predict_stitch_once. cbv beta iota; rewrite ?fst_bind.
  destruct by_patch_of_size as [p|]; [|trivial].
  destruct (p =? 0); [trivial|].
  destruct (fst (tiled G model input_image_array p batch_size padding_size))
    as [img|] eqn:Ht; [|discriminate].
  apply tiled_stitch_once_of_tiled in Ht. rewrite Ht. trivial.
Qed.

End StitchOnce.

(** ** A failing model call ends the run *)

Section FailFast.

Variable G : Namespace.
Variable model : Model.

Lemma fails_fast_bind {X Y} (m : M X) (f : X -> M Y) :
  fails_fast model m -> (forall x, fails_fast model (f x)) ->
  fails_fast model (bind m f).
Proof.
  intros Hm Hf batch e Hin Hp. destruct m as [[x|e'] t].
  - rewrite bind_Ok in *. cbn [fst snd] in *.
    apply in_app_or in Hin as [Hin|Hin].
    + destruct (Hm batch e Hin Hp) as [Habs _]. discriminate.
    + destruct (Hf x batch e Hin Hp) as [Hr [t' Ht]].
      split; [exact Hr|]. exists (t ++ t'). now rewrite Ht, app_assoc.
  - rewrite bind_Raise in *. cbn [fst snd] in *.
    destruct (Hm batch e Hin Hp) as [[= ->] Ht]. now split.
Qed.

Lemma fails_fast_quiet {X} (run : M X) :
  predict_calls (snd run) = [] -> fails_fast model run.
Proof.
  intros Hq batch e Hin _. exfalso.
  apply in_split in Hin as (t1 & t2 & Ht).
  rewrite Ht, predict_calls_app in Hq. cbn in Hq.
  now destruct (predict_calls t1).
Qed.

Lemma fails_fast_call_predict (batch : Batch) :
  fails_fast model (call_predict model batch).
Proof.
  intros b e [[= <-]|[]] Hp. cbn. split; [exact Hp|]. now exists [].
Qed.

Lemma fails_fast_for_each {I S} (xs : list I) (body : I -> S -> M S) :
  (forall x s, fails_fast model (body x s)) ->
  forall s, fails_fast model (for_each xs body s).
Proof.
  intros Hbody. induction xs as [|x xs IH]; intros s.
  - now apply fails_fast_quiet.
  - cbn [for_each]. apply fails_fast_bind; auto.
Qed.

Lemma fails_fast_predict_group (patches : Batch) (batch_size i : Z)
  (collect : option Batch) :
  fails_fast model (predict_group model patches batch_size i collect).
Proof.
  unfold predict_group. apply fails_fast_bind.
  - apply fails_fast_call_predict.
  - intros out. destruct (i =? 0); [|destruct collect];
      now apply fails_fast_quiet.
Qed.

Ltac fails_fast_steps :=
  repeat match goal with
    | |- fails_fast _ (bind _ _) => apply fails_fast_bind; [|intros ?]
    | |- fails_fast _ (call_predict _ _) => apply fails_fast_call_predict
    | |- fails_fast _ (predict_group _ _ _ _ _) =>
        apply fails_fast_predict_group
    | |- fails_fast _ _ => apply fails_fast_quiet; reflexivity
    end.

Lemma fails_fast_loop_body (input_image_array : ndarray) (patches : Batch)
  (p_shape : list Z) (batch_size padding_size i : Z)
  (collect : option Batch) :
  fails_fast model
    (loop_body G model input_image_array patches p_shape batch_size
               padding_size i collect).
Proof.
  unfold loop_body. fails_fast_steps.
Qed.

Lemma fails_fast_single_pass (input_image_array : ndarray) :
  fails_fast model (single_pass G model input_image_array).
Proof. unfold single_pass. fails_fast_steps. Qed.

Lemma fails_fast_tiled (input_image_array : ndarray)
  (p batch_size padding_size : Z) :
  fails_fast model (tiled G model input_image_array p batch_size padding_size).
Proof.
  unfold tiled. fails_fast_steps.
  match goal with x : (Batch * list Z)%type |- _ => destruct x end.
  fails_fast_steps.
  - unfold batch_loop. fails_fast_steps.
    apply fails_fast_for_each. intros. apply fails_fast_loop_body.
  - match goal with c : option Batch |- _ => destruct c end;
      now apply fails_fast_quiet.
Qed.

(** If a call of [model.predict] made by [_predict] raises (on the tiled
    path the model is called only where the name [self] resolves), that
    call is the last thing [_predict] does (no further model call, no
    stitch, no codec call follows) and [_predict] raises the model's own
    exception, as it is. *)
Lemma model_error_reaches_caller_unchanged (input_image_array : ndarray)
  (by_patch_of_size : option Z) (batch_size padding_size : Z)
  (batch : Batch) (e : exn) :
  let run := _predict G model input_image_array by_patch_of_size
                      batch_size padding_size in
  In (EvPredict batch) (snd run) ->
  predict model batch = Raise e ->
  fst run = Raise e /\ exists t, snd run = t ++ [EvPredict batch].
Proof.
  cbn zeta. revert batch e. change (fails_fast model
    (_predict G model input_image_array by_patch_of_size batch_size
              padding_size)).
  unfold _predict. apply fails_fast_bind.
  - destruct by_patch_of_size as [p|]; [destruct (p =? 0)|];
      auto using fails_fast_single_pass, fails_fast_tiled.
  - intros x. now apply fails_fast_quiet.
Qed.

End FailFast.

(** ** The shape of the result *)

Lemma wrap_int64_fits (n : Z) : in_int64 n -> wrap_int64 n = n.
Proof.
  unfold in_int64, wrap_int64. intros Hn.
  rewrite Z.mod_small; lia.
Qed.

Lemma scaled_shape_rank3 (a b c s : Z) :
  scaled_shape [a; b; c] s = [wrap_int64 (a * s); wrap_int64 (b * s); 3].
Proof. reflexivity. Qed.

Lemma shape_eqb_refl (s : list Z) : shape_eqb s s = true.
Proof. unfold shape_eqb. now destruct (list_eq_dec Z.eq_dec s s). Qed.

Lemma np_append_same_shape (s : list Z) (collect batch : Batch) :
  Forall (has_shape s) collect -> Forall (has_shape s) batch ->
  np_append collect batch = Ok (collect ++ batch).
Proof.
  intros Hc Hb. unfold np_append.
  replace (forallb _ collect) with true; [reflexivity|].
  symmetry. apply forallb_forall. intros x Hx.
  apply forallb_forall. intros y Hy.
  rewrite Forall_forall in Hc, Hb.
  rewrite (Hc x Hx), (Hb y Hy). apply shape_eqb_refl.
Qed.

Section ResultShape.

Variable G : Namespace.
Variable model : Model.
Hypothesis C : contracts G model.

Variable input_image_array : ndarray.
Variables H W : Z.
Hypothesis image_shape : shape input_image_array = [H; W; 3].
Hypothesis image_fits :
  in_int64 (H * scale model) /\ in_int64 (W * scale model).

Lemma single_pass_shape :
  exists sr_img,
    fst (single_pass G model input_image_array) = Ok sr_img /\
    shape sr_img = [H * scale model; W * scale model; 3].
Proof.
  destruct (codec_forward_expand G model C _ _ _ image_shape)
    as (lr & Hpa & Hlr).
  destruct (model_predict G model C [lr] H W) as (out & Hp & Hlen & Hout).
  { constructor; [|constructor]. unfold has_shape. congruence. }
  destruct out as [|y [|z out]]; try discriminate Hlen.
  - apply Forall_inv in Hout. exists y. split; [|exact Hout].
    unfold single_pass, call_process_array, call_predict, call, lift.
    rewrite Hpa, bind_Ok. cbn [fst]. rewrite Hp, bind_Ok. reflexivity.
  - unfold len in Hlen. cbn in Hlen. lia.
Qed.

Variables patch_size batch_size padding_size : Z.
Hypothesis patch_size_pos : 0 < patch_size.
Hypothesis batch_size_pos : 1 <= batch_size.
Hypothesis padding_size_nonneg : 0 <= padding_size.

Variable patches : Batch.
Variables ph pw : Z.
Hypothesis patches_nonempty : patches <> [].
Hypothesis patches_shape :
  Forall (has_shape [patch_size + 2 * padding_size;
                     patch_size + 2 * padding_size; 3]) patches.
Hypothesis ph_multiple : ph mod patch_size = 0.
Hypothesis pw_multiple : pw mod patch_size = 0.
Hypothesis padded_fits :
  in_int64 (ph * scale model) /\ in_int64 (pw * scale model).

Lemma stitch_collected_shape (c : Batch) :
  c <> [] ->
  Forall (has_shape (prediction_shape model patch_size padding_size)) c ->
  exists sr_img,
    stitch_collected G model input_image_array [ph; pw; 3] padding_size c
    = (Ok sr_img,
       [EvStitch c [ph * scale model; pw * scale model; 3]
                 [H * scale model; W * scale model; 3]
                 (padding_size * scale model)]) /\
    shape sr_img = [H * scale model; W * scale model; 3].
Proof.
  intros Hne Hc. pose proof (model_scale G model C) as Hs.
  unfold stitch_collected, call_stitch, call.
  rewrite image_shape, !scaled_shape_rank3.
  rewrite !wrap_int64_fits by tauto.
  destruct (stitcher G model C c (patch_size * scale model)
              (padding_size * scale model)
              (ph * scale model) (pw * scale model)
              (H * scale model) (W * scale model)) as (r & Hr & Hshape);
    trivial.
  - unfold prediction_shape in Hc.
    replace (patch_size * scale model + 2 * (padding_size * scale model))
      with ((patch_size + 2 * padding_size) * scale model) by ring.
    exact Hc.
  - nia.
  - rewrite Z.mul_mod_distr_r by lia. rewrite ph_multiple. reflexivity.
  - rewrite Z.mul_mod_distr_r by lia. rewrite pw_multiple. reflexivity.
  - exists r. rewrite Hr. now split.
Qed.

Lemma loop_body_returns (j : nat) (s : option Batch) :
  (j < group_count (len patches) batch_size)%nat ->
  collect_ready model patch_size padding_size j s ->
  exists s' t,
    loop_body G model input_image_array patches [ph; pw; 3] batch_size
              padding_size (Z.of_nat j * batch_size) s = (Ok s', t) /\
    collect_ready model patch_size padding_size (S j) s'.
Proof.
  intros Hj Hinv.
  assert (Hpos : 0 < batch_size) by lia.
  pose proof (group_start_in_range _ _ _ Hpos Hj) as Hstart.
  set (i := Z.of_nat j * batch_size) in *.
  destruct (model_predict G model C (slice patches i (i + batch_size))
              (patch_size + 2 * padding_size)
              (patch_size + 2 * padding_size))
    as (out & Hp & Hlen & Hout); [now apply Forall_slice|].
  rewrite len_slice_window in Hlen by lia.
  assert (Hout_ne : out <> []).
  { intros ->. unfold len in Hlen at 1. cbn in Hlen. lia. }
  assert (Hgroup : exists c',
    predict_group model patches batch_size i s
      = (Ok c', [EvPredict (slice patches i (i + batch_size))]) /\
    c' <> [] /\
    Forall (has_shape (prediction_shape model patch_size padding_size)) c').
  { unfold predict_group, call_predict, call. rewrite Hp, bind_Ok.
    destruct (i =? 0) eqn:E.
    - exists out. repeat split; trivial.
    - apply Z.eqb_neq in E. destruct j as [|j]; [subst i; lia|].
      destruct Hinv as (c & -> & Hne & Hc).
      exists (c ++ out). unfold lift.
      rewrite (np_append_same_shape
                 (prediction_shape model patch_size padding_size))
        by assumption.
      repeat split.
      + intros Happ. now apply app_eq_nil in Happ as [? _].
      + apply Forall_app. now split. }
  destruct Hgroup as (c' & Hg & Hne' & Hc').
  destruct (stitch_collected_shape c' Hne' Hc') as (sr & Hst & _).
  destruct (codec_reverse G model C sr) as (o & Ho & _).
  unfold loop_body, logger_info, call_process_output, call, lift.
  rewrite (self_resolves G model C), bind_Ok.
  rewrite (logger_returns G model C), bind_Ok.
  rewrite Hg, bind_Ok. rewrite Hst, bind_Ok. rewrite Ho, bind_Ok.
  cbn [fst snd]. eexists _, _. split; [reflexivity|].
  cbn [collect_ready]. now exists c'.
Qed.

Lemma batch_loop_returns :
  exists c t,
    batch_loop G model input_image_array patches [ph; pw; 3] batch_size
               padding_size = (Ok (Some c), t) /\
    c <> [] /\
    Forall (has_shape (prediction_shape model patch_size padding_size)) c.
Proof.
  assert (Hpos : 0 < batch_size) by lia.
  unfold batch_loop. rewrite py_range_groups by exact Hpos.
  unfold lift. rewrite bind_Ok. cbn [fst snd app].
  destruct (for_each_total (collect_ready model patch_size padding_size)
              (map (fun k => Z.of_nat k * batch_size)
                   (seq 0 (group_count (len patches) batch_size)))
              (loop_body G model input_image_array patches [ph; pw; 3]
                         batch_size padding_size) 0)
    with (s0 := @None Batch) as (s' & t & Hrun & Hinv).
  - intros j s Hj Hs. rewrite length_map, length_seq in Hj.
    rewrite nth_group_start by exact Hj. now apply loop_body_returns.
  - exact I.
  - rewrite length_map, length_seq in Hinv.
    assert (Hn : 0 < len patches).
    { pose proof (len_nonneg patches). pose proof (len_nil_iff patches).
      destruct (Z.eq_dec (len patches) 0); [tauto|lia]. }
    pose proof (group_count_pos _ _ Hpos Hn) as Hcount.
    destruct (group_count (len patches) batch_size); [lia|].
    destruct Hinv as (c & -> & Hne & Hc).
    exists c, t. rewrite Hrun. now repeat split.
Qed.

End ResultShape.

Section PredictShape.

Variable G : Namespace.
Variable model : Model.
Hypothesis C : contracts G model.

Variable input_image_array : ndarray.
Variables H W : Z.
Hypothesis image_shape : shape input_image_array = [H; W; 3].
Hypothesis H_pos : 0 < H.
Hypothesis W_pos : 0 < W.

Variables batch_size padding_size : Z.
Hypothesis batch_size_pos : 1 <= batch_size.
Hypothesis padding_size_nonneg : 0 <= padding_size.

Lemma tiled_shape (patch_size : Z) :
  0 < patch_size ->
  (H + patch_size) * scale model < 2 ^ 63 ->
  (W + patch_size) * scale model < 2 ^ 63 ->
  exists sr_img,
    fst (tiled G model input_image_array patch_size batch_size padding_size)
    = Ok sr_img /\
    shape sr_img = [H * scale model; W * scale model; 3].
Proof.
  intros Hp HH HW. pose proof (model_scale G model C) as Hs.
  destruct (codec_forward G model C _ _ _ image_shape) as (lr & Hpa & Hlr).
  rewrite image_shape in Hlr.
  destruct (splitter G model C lr H W patch_size padding_size)
    as (patches & ph & pw & Hsplit & Hne & Hshapes & Hph & Hpw & Hbh & Hbw);
    trivial.
  assert (image_fits :
            in_int64 (H * scale model) /\ in_int64 (W * scale model))
    by (unfold in_int64; split; nia).
  assert (padded_fits :
            in_int64 (ph * scale model) /\ in_int64 (pw * scale model))
    by (unfold in_int64; split; nia).
  destruct (batch_loop_returns G model C input_image_array H W image_shape
              image_fits patch_size batch_size padding_size Hp
              batch_size_pos patches ph pw Hne Hshapes Hph Hpw padded_fits)
    as (c & t & Hloop & Hc_ne & Hc).
  destruct (stitch_collected_shape G model C input_image_array H W
              image_shape image_fits patch_size padding_size Hp ph pw Hph
              Hpw padded_fits c Hc_ne Hc)
    as (sr & Hst & Hshape).
  exists sr. split; [|exact Hshape].
  unfold tiled.
  rewrite (fst_bind_Ok _ _ tt) by exact (self_resolves G model C).
  rewrite (fst_bind_Ok _ _ tt) by exact (logger_returns G model C _ _).
  rewrite (fst_bind_Ok _ _ lr) by exact Hpa.
  rewrite (fst_bind_Ok _ _ (patches, [ph; pw; 3])) by exact Hsplit.
  cbv beta iota.
  rewrite (fst_bind_Ok _ _ tt) by exact (self_resolves G model C).
  rewrite (fst_bind_Ok _ _ tt) by exact (logger_returns G model C _ _).
  rewrite (fst_bind_Ok _ _ (Some c)) by (now rewrite Hloop).
  cbv beta iota. now rewrite Hst.
Qed.

(** With collaborators that keep the contracts of the specification and a
    name [self] that resolves, for a non-empty image of shape [(H, W, 3)],
    a patch size that is unset or not negative, a batch size of at least 1,
    a padding size that is not negative and scaled sizes within [int64],
    [_predict] returns an array of shape [(scale*H, scale*W, 3)]. *)
Lemma predict_returns_scaled_shape (by_patch_of_size : option Z) :
  match by_patch_of_size with
  | Some p => 0 <= p /\ (H + p) * scale model < 2 ^ 63 /\
              (W + p) * scale model < 2 ^ 63
  | None => True
  end ->
  exists sr_img,
    fst (_predict G model input_image_array by_patch_of_size batch_size
                  padding_size) = Ok sr_img /\
    shape sr_img = [scale model * H; scale model * W; 3].
Proof.
  intros Hp.
  assert (Hpath : exists sr,
    fst (match by_patch_of_size with
         | Some p =>
             if p =? 0 then single_pass G model input_image_array
             else tiled G model input_image_array p batch_size padding_size
         | None => single_pass G model input_image_array
         end) = Ok sr /\
    shape sr = [H * scale model; W * scale model; 3]).
  { destruct by_patch_of_size as [p|].
    - destruct (p =? 0) eqn:E.
      + now apply single_pass_shape.
      + apply Z.eqb_neq in E. apply tiled_shape; lia.
    - now apply single_pass_shape. }
  destruct Hpath as (sr & Hsr & Hshape).
  destruct (codec_reverse G model C sr) as (o & Ho & Hos).
  exists o. unfold _predict.
  rewrite (fst_bind_Ok _ _ sr) by exact Hsr.
  split; [exact Ho|].
  rewrite Hos, Hshape. f_equal; [|f_equal]; apply Z.mul_comm.
Qed.

End PredictShape.

(** ** What the batch size decides *)

Section BatchSize.

Variable G : Namespace.
Variable model : Model.
Variable input_image_array : ndarray.
Variable patches : Batch.
Variable p_shape : list Z.
Variable padding_size : Z.

Lemma batch_loop_zero_step :
  batch_loop G model input_image_array patches p_shape 0 padding_size
  = (Raise ValueError, []).
Proof. reflexivity. Qed.

Lemma batch_loop_negative_step (batch_size : Z) :
  batch_size < 0 ->
  batch_loop G model input_image_array patches p_shape batch_size
             padding_size = (Ok None, []).
Proof.
  intros Hb. unfold batch_loop, py_range, range_count.
  destruct (batch_size =? 0) eqn:E; [apply Z.eqb_eq in E; lia|].
  destruct (0 <? batch_size) eqn:E'; [apply Z.ltb_lt in E'; lia|].
  pose proof (len_nonneg patches) as Hn.
  assert (Hq : (0 - len patches - batch_size - 1) / - batch_size <= 0).
  { apply Z.lt_succ_r. apply Z.div_lt_upper_bound; lia. }
  replace (Z.to_nat (Z.max 0 _)) with 0%nat by lia.
  reflexivity.
Qed.

End BatchSize.

(** ** The stitches of a tiled run *)

Section Stitches.

Variable G : Namespace.
Variable model : Model.
Variable input_image_array : ndarray.

Lemma loop_body_stitches_once (patches : Batch) (p_shape : list Z)
  (batch_size padding_size i : Z) (s s' : option Batch) (t : list Event) :
  loop_body G model input_image_array patches p_shape batch_size
            padding_size i s = (Ok s', t) ->
  exists c, s' = Some c /\ stitch_calls t = [c].
Proof.
  unfold loop_body. intros Hb.
  inv_bind Hb. inv_bind Hb. inv_bind Hb. inv_bind Hb. inv_bind Hb.
  injection Hb as <- <-.
  repeat match goal with
  | Hc : lift _ = _ |- _ => unfold lift in Hc; injection Hc as _ <-
  | Hc : logger_info _ _ = _ |- _ =>
      unfold logger_info, call in Hc; injection Hc as _ <-
  | Hc : call_process_output _ _ = _ |- _ =>
      unfold call_process_output, call in Hc; injection Hc as _ <-
  | Hc : stitch_collected _ _ _ _ _ _ = _ |- _ =>
      unfold stitch_collected, call_stitch, call in Hc; injection Hc as _ <-
  | Hc : predict_group _ _ _ _ _ = (_, ?t) |- _ =>
      assert (stitch_calls t = []);
      [ unfold predict_group, call_predict, call in Hc;
        inv_bind Hc;
        match goal with
        | Hp : (_, _) = (_, _) |- _ => injection Hp as _ <-
        end;
        destruct (i =? 0); [|destruct s];
        unfold ret, lift, raise in Hc; injection Hc as _ <-; reflexivity
      | clear Hc ]
  end.
  eexists. split; [reflexivity|].
  rewrite !stitch_calls_app. cbn.
  match goal with Hs : stitch_calls _ = [] |- _ => now rewrite Hs end.
Qed.

Lemma for_each_stitches_every_group (patches : Batch) (p_shape : list Z)
  (batch_size padding_size : Z) (indices : list Z)
  (s s' : option Batch) (t : list Event) :
  for_each indices
    (loop_body G model input_image_array patches p_shape batch_size
               padding_size) s = (Ok s', t) ->
  List.length (stitch_calls t) = List.length indices.
Proof.
  revert s t. induction indices as [|i indices IH]; intros s t Hrun.
  - cbn in Hrun. now injection Hrun as _ <-.
  - cbn [for_each] in Hrun. inv_bind Hrun.
    match goal with
    | Hb : loop_body _ _ _ _ _ _ _ _ _ = _ |- _ =>
        apply loop_body_stitches_once in Hb as (c & _ & Hc)
    end.
    rewrite stitch_calls_app, length_app, Hc. cbn. f_equal. eauto.
Qed.

End Stitches.

Section StitchCount.

Variable G : Namespace.
Variable model : Model.
Variable input_image_array : ndarray.

(** A tiled run that returns has called the stitcher once in every turn of
    the loop and once more after it: at least twice. *)
Lemma tiled_run_stitches_per_group (p batch_size padding_size : Z)
  (sr_img : ndarray) (t : list Event) :
  0 < batch_size ->
  tiled G model input_image_array p batch_size padding_size
  = (Ok sr_img, t) ->
  (2 <= List.length (stitch_calls t))%nat.
Proof.
  intros Hb Hrun. unfold tiled in Hrun.
  inv_bind Hrun. inv_bind Hrun. inv_bind Hrun. inv_bind Hrun.
  match goal with x : (Batch * list Z)%type |- _ => destruct x as [ps shp] end.
  inv_bind Hrun. inv_bind Hrun. inv_bind Hrun.
  match goal with
  | Hl : batch_loop _ _ _ _ _ _ _ = _ |- _ =>
      unfold batch_loop in Hl; rewrite py_range_groups in Hl by exact Hb;
      unfold lift in Hl; rewrite bind_Ok in Hl; cbn [app] in Hl;
      rewrite <- surjective_pairing in Hl; rename Hl into Hloop
  end.
  pose proof (for_each_stitches_every_group _ _ _ _ _ _ _ _ _ _ _ Hloop)
    as Hcount.
  rewrite length_map, length_seq in Hcount.
  match goal with c : option Batch |- _ => destruct c as [c|] end;
    [|discriminate].
  destruct (group_count (len ps) batch_size) eqn:Hg;
    [cbn in Hloop; discriminate|].
  unfold stitch_collected, call_stitch, call in Hrun.
  injection Hrun as _ <-.
  rewrite !stitch_calls_app, !length_app, Hcount. cbn. lia.
Qed.

End StitchCount.

(** ** A patch size of zero, a negative patch size *)

Section PatchSize.

Variable G : Namespace.
Variable model : Model.
Variable input_image_array : ndarray.
Variables batch_size padding_size : Z.

(** C6, as the code has it.  A patch size of 0 does not request tiling:
    [if by_patch_of_size:] is false for 0, and the run of [_predict], its
    result and its calls, is the run with the patch size unset; neither
    the splitter nor the stitcher is called and the model is called at
    most once. *)
Theorem zero_patch_size_takes_the_single_pass :
  let run := _predict G model input_image_array (Some 0) batch_size
                      padding_size in
  run = _predict G model input_image_array None batch_size padding_size /\
  split_calls (snd run) = [] /\
  stitch_calls (snd run) = [] /\
  (List.length (predict_calls (snd run)) <= 1)%nat.
Proof.
  cbn zeta. split; [reflexivity|].
  change (_predict G model input_image_array (Some 0) batch_size
                   padding_size)
    with (bind (single_pass G model input_image_array)
               (call_process_output G)).
  destruct (single_pass_trace G model input_image_array)
    as (Hsplit & Hstitch & Hpredict).
  rewrite snd_bind.
  destruct (fst (single_pass G model input_image_array)) as [sr|e];
    [|now repeat split].
  rewrite split_calls_app, stitch_calls_app, predict_calls_app.
  rewrite Hsplit, Hstitch. cbn. rewrite app_nil_r. now repeat split.
Qed.

End PatchSize.

(** ** The collaborators of [SpecModel] keep the contracts *)

Lemma zrange_pos (n : Z) : 0 < n -> exists l, SpecModel.zrange n = 0 :: l.
Proof.
  intros Hn. unfold SpecModel.zrange.
  destruct (Z.to_nat n) as [|k] eqn:E; [lia|].
  cbn. now eexists.
Qed.

Lemma next_multiple_spec (n p : Z) :
  0 < n -> 0 < p ->
  0 < SpecModel.next_multiple n p / p /\
  SpecModel.next_multiple n p mod p = 0.
Proof.
  intros Hn Hp. unfold SpecModel.next_multiple.
  rewrite Z.div_mul, Z.mod_mul by lia. split; [|reflexivity].
  apply Z.div_str_pos. lia.
Qed.

Lemma next_multiple_bound (n p : Z) :
  0 < n -> 0 < p -> 0 <= SpecModel.next_multiple n p < n + p.
Proof.
  intros Hn Hp. unfold SpecModel.next_multiple.
  pose proof (Z.mul_div_le (n + p - 1) p Hp) as Hle.
  pose proof (Z.div_pos (n + p - 1) p ltac:(lia) Hp) as Hq.
  nia.
Qed.

Lemma shape_upscale (s h w : Z) (a : ndarray) :
  shape a = [h; w; 3] -> shape (SpecModel.upscale s a) = [h * s; w * s; 3].
Proof. intros Ha. unfold SpecModel.upscale. now rewrite Ha. Qed.

Lemma spec_model_contracts (s : Z) :
  0 < s ->
  contracts (SpecModel.namespace (SpecModel.upscaling_model s))
            (SpecModel.upscaling_model s).
Proof.
  intros Hs.
  constructor;
    cbn [SpecModel.namespace SpecModel.upscaling_model name_self logger
         process_array process_output split_image_into_overlapping_patches
         stich_together predict scale].
  - reflexivity.
  - reflexivity.
  - intros a h w Ha. unfold SpecModel.process_array. rewrite Ha.
    exists (SpecModel.to_model_domain a). split; [reflexivity|exact Ha].
  - intros a h w Ha. unfold SpecModel.process_array. rewrite Ha.
    exists (SpecModel.to_model_domain a). split; [reflexivity|exact Ha].
  - intros a. eexists. split; reflexivity.
  - intros a h w p pad Ha Hh Hw Hp Hpad.
    unfold SpecModel.split_image_into_overlapping_patches. rewrite Ha.
    destruct (p <=? 0) eqn:E; [apply Z.leb_le in E; lia|].
    destruct (next_multiple_spec h p Hh Hp) as [Hqh Hmh].
    destruct (next_multiple_spec w p Hw Hp) as [Hqw Hmw].
    pose proof (next_multiple_bound h p Hh Hp) as Hbh.
    pose proof (next_multiple_bound w p Hw Hp) as Hbw.
    eexists _, _, _. split; [reflexivity|]. repeat split; trivial; try lia.
    + destruct (zrange_pos _ Hqh) as [lh ->].
      destruct (zrange_pos _ Hqw) as [lw ->]. discriminate.
    + apply Forall_forall. intros x Hx.
      apply in_flat_map in Hx as (i & _ & Hx).
      apply in_map_iff in Hx as (j & <- & _). reflexivity.
  - intros c t pad ph pw th tw Hne Hc Ht Hph Hpw.
    destruct c as [|p0 c]; [contradiction|].
    unfold SpecModel.stich_together.
    pose proof (Forall_inv Hc) as H0. unfold has_shape in H0. rewrite H0.
    rewrite Z.eqb_refl.
    replace (t + 2 * pad - 2 * pad) with t by lia.
    rewrite (proj2 (Z.ltb_lt 0 t) Ht), Hph, Hpw.
    replace (forallb _ (p0 :: c)) with true.
    + eexists. split; reflexivity.
    + symmetry. apply forallb_forall. intros x Hx.
      rewrite Forall_forall in Hc. rewrite (Hc x Hx). apply shape_eqb_refl.
  - exact Hs.
  - intros batch h w Hb. eexists. split; [reflexivity|]. split.
    + unfold len. now rewrite length_map.
    + apply Forall_forall. intros y Hy.
      apply in_map_iff in Hy as (x & <- & Hx).
      rewrite Forall_forall in Hb. now apply shape_upscale, Hb.
Qed.

(** ** The name [self]

    [_predict] (line 142) has no parameter [self] and the module binds no
    such name, yet lines 160, 166 and 168 read [self.logger].  What
    follows holds in every namespace in which the lookup of [self] raises,
    as it does in the module as it is written. *)

(** Where the name [self] does not resolve, the tiled path raises the
    [NameError] of its first line and calls nothing. *)
Lemma tiled_without_self (G : Namespace) (model : Model)
  (input_image_array : ndarray) (p batch_size padding_size : Z) (e : exn) :
  name_self G = Raise e ->
  tiled G model input_image_array p batch_size padding_size = (Raise e, []).
Proof. intros H. unfold tiled. now rewrite H. Qed.

Section SelfUnbound.

Variable G : Namespace.
Variable e : exn.
Hypothesis self_unbound : name_self G = Raise e.

Variable model : Model.
Variable input_image_array : ndarray.

Lemma loop_body_without_self (patches : Batch) (p_shape : list Z)
  (batch_size padding_size i : Z) (collect : option Batch) :
  loop_body G model input_image_array patches p_shape batch_size
            padding_size i collect = (Raise e, []).
Proof. unfold loop_body. now rewrite self_unbound. Qed.

Lemma loop_body_once_without_self (patches : Batch) (batch_size i : Z)
  (collect : option Batch) :
  loop_body_once G model patches batch_size i collect = (Raise e, []).
Proof. unfold loop_body_once. now rewrite self_unbound. Qed.

Lemma first_group_exists (patches : Batch) (batch_size : Z) :
  patches <> [] -> 1 <= batch_size ->
  exists k, group_count (len patches) batch_size = S k.
Proof.
  intros Hne Hb.
  assert (Hn : 0 < len patches).
  { pose proof (len_nonneg patches). pose proof (len_nil_iff patches).
    destruct (Z.eq_dec (len patches) 0); [tauto|lia]. }
  pose proof (group_count_pos (len patches) batch_size ltac:(lia) Hn).
  destruct (group_count (len patches) batch_size) as [|k]; [lia|].
  now exists k.
Qed.

Lemma batch_loop_without_self (patches : Batch) (p_shape : list Z)
  (batch_size padding_size : Z) :
  patches <> [] -> 1 <= batch_size ->
  batch_loop G model input_image_array patches p_shape batch_size
             padding_size = (Raise e, []).
Proof.
  intros Hne Hb. unfold batch_loop.
  rewrite py_range_groups by lia. rewrite bind_lift_Ok.
  destruct (first_group_exists patches batch_size Hne Hb) as [k ->].
  cbn [seq map for_each]. now rewrite loop_body_without_self.
Qed.

Lemma predict_without_self (p batch_size padding_size : Z) :
  p <> 0 ->
  _predict G model input_image_array (Some p) batch_size padding_size
  = (Raise e, []).
Proof.
  intros Hp. unfold _predict. apply Z.eqb_neq in Hp. rewrite Hp.
  now rewrite (tiled_without_self G model input_image_array p batch_size
                 padding_size e self_unbound).
Qed.


(** C1.  Where the name [self] is unbound, as in the module as it is
    written, every tiled call of [_predict] (a patch size other than 0),
    whatever the image, the model, the batch size and the padding size,
    raises the exception of that name at line 160 before anything is
    called: it returns no array, of the scaled shape or of any other. *)
Theorem tiled_call_returns_no_array (p batch_size padding_size : Z) :
  p <> 0 ->
  let run := _predict G model input_image_array (Some p) batch_size
                      padding_size in
  run = (Raise e, []) /\
  forall sr_img, fst run <> Ok sr_img.
Proof.
  intros Hp. cbn zeta.
  rewrite (predict_without_self p batch_size padding_size Hp).
  split; [reflexivity|discriminate].
Qed.

(** C4.  Where the name [self] is unbound, as in the module as it is
    written, the loop over the groups raises the exception of that name
    in the first statement of its first turn (line 168), for every
    non-empty patch collection and every batch size from 1 on: no group is
    handed to the model and no prediction is collected, at index [i] or at
    any other. *)
Theorem no_group_reaches_the_model (patches : Batch) (p_shape : list Z)
  (batch_size padding_size : Z) :
  patches <> [] -> 1 <= batch_size ->
  let run := batch_loop G model input_image_array patches p_shape
                        batch_size padding_size in
  run = (Raise e, []) /\
  predict_calls (snd run) = [] /\
  forall collect, fst run <> Ok collect.
Proof.
  intros Hne Hb. cbn zeta.
  rewrite (batch_loop_without_self patches p_shape batch_size padding_size
             Hne Hb).
  split; [reflexivity|]. split; [reflexivity|discriminate].
Qed.


End SelfUnbound.

(** * Runs *)

(** ** [_forward_pass] on decoded files *)

(** C2.  A 3 x 3 image with 4 channels: [_forward_pass] logs the error and
    returns [None]; nothing is raised, no patch is made and the model is
    not called. *)
Theorem four_channels_are_logged_not_raised :
  getitem (shape (SpecModel.blank [3; 3; 4] 7%Q)) 2 = Ok 4 /\
  _forward_pass SpecModel.world "rgba.png" =
  (Ok None,
   [EvImread "rgba.png";
    EvLog ERROR "rgba.png is not an image with 3 channels."]).
Proof. split; reflexivity. Qed.

(** C3.  Every image with 3 channels, whatever its height and width, ends
    [_forward_pass] with the [TypeError] of [lr_img.size[1]]: a 2000 x 2000
    image is not tiled, a 2000 x 10 image is not tiled, and a 4 x 4 image is
    not processed in a single pass. *)
Theorem size_test_raises_for_every_rgb_image :
  _forward_pass SpecModel.world "large.png"
  = (Raise TypeError, [EvImread "large.png"]) /\
  _forward_pass SpecModel.world "tall.png"
  = (Raise TypeError, [EvImread "tall.png"]) /\
  _forward_pass SpecModel.world "small.png"
  = (Raise TypeError, [EvImread "small.png"]).
Proof. repeat split; reflexivity. Qed.

(** ** [_predict] on a 4 x 4 image *)

(** C5.  A 4 x 4 image in patches of size 2 gives 4 patches; with a batch
    size of 2 the stitcher is called three times: in the first turn of the
    loop on the 2 predictions at hand, in the second turn on all 4, and
    after the loop on all 4 again. *)
Theorem loop_stitches_after_every_group :
  let img := SpecModel.gradient 4 4 in
  let run := _predict SpecModel.world SpecModel.doubling img (Some 2) 2 1 in
  len (SpecModel.patches_of (SpecModel.to_model_domain img) 2 1) = 4 /\
  is_ok (fst run) = true /\
  map len (predict_calls (snd run)) = [2; 2] /\
  map len (stitch_calls (snd run)) = [2; 4; 4].
Proof. vm_compute. repeat split; reflexivity. Qed.

Lemma predict_returns_scaled_shape_witness :
  let img := SpecModel.gradient 4 4 in
  contracts SpecModel.world SpecModel.doubling /\
  shape img = [4; 4; 3] /\
  exists sr_img,
    fst (_predict SpecModel.world SpecModel.doubling img (Some 2) 2 1)
    = Ok sr_img /\
    shape sr_img = [scale SpecModel.doubling * 4;
                    scale SpecModel.doubling * 4; 3].
Proof.
  cbn zeta.
  assert (C : contracts SpecModel.world SpecModel.doubling)
    by (apply spec_model_contracts; reflexivity).
  split; [exact C|]. split; [reflexivity|].
  apply (predict_returns_scaled_shape SpecModel.world SpecModel.doubling C
           (SpecModel.gradient 4 4) 4 4);
    first [reflexivity | lia | cbn; lia].
Defined.

(** C6 fails for a patch size of 0: [_predict] raises nothing, never calls
    the splitter and returns the array of the single-pass path. *)
Lemma zero_patch_size_raises_nothing :
  let img := SpecModel.gradient 4 4 in
  let run := _predict SpecModel.world SpecModel.doubling img (Some 0) 2 1 in
  fst run <> Raise InvalidPatchSize /\
  is_ok (fst run) = true /\
  split_calls (snd run) = [] /\
  map len (predict_calls (snd run)) = [1].
Proof.
  cbn zeta.
  assert (H : is_ok (fst (_predict SpecModel.world SpecModel.doubling
                                   (SpecModel.gradient 4 4) (Some 0) 2 1))
              = true) by (vm_compute; reflexivity).
  split; [|split; [exact H|split; vm_compute; reflexivity]].
  intros Habs. rewrite Habs in H. discriminate.
Qed.

Lemma unset_patch_size_is_one_direct_model_call_witness :
  let img := SpecModel.gradient 4 4 in
  let lr_img := [SpecModel.to_model_domain img] in
  let sr_img := SpecModel.upscale 2 (SpecModel.to_model_domain img) in
  process_array SpecModel.world img true = Ok lr_img /\
  predict SpecModel.doubling lr_img = Ok [sr_img] /\
  getitem [sr_img] 0 = Ok sr_img /\
  _predict SpecModel.world SpecModel.doubling img None 10 2 =
  (process_output SpecModel.world sr_img,
   [EvProcessArray img true; EvPredict lr_img; EvProcessOutput sr_img]).
Proof.
  cbn zeta. split; [reflexivity|]. split; [reflexivity|].
  split; [reflexivity|].
  apply (proj2 (proj2 (proj2
           (unset_patch_size_is_one_direct_model_call
              SpecModel.world SpecModel.doubling (SpecModel.gradient 4 4)
              10 2)))
           [SpecModel.to_model_domain (SpecModel.gradient 4 4)]
           [SpecModel.upscale 2
              (SpecModel.to_model_domain (SpecModel.gradient 4 4))]);
    reflexivity.
Defined.

Lemma predict_equals_stitch_once_witness :
  exists sr_img,
    fst (_predict SpecModel.world SpecModel.doubling
                  (SpecModel.gradient 4 4) (Some 2) 2 1) = Ok sr_img /\
    fst (_predict_stitch_once SpecModel.world SpecModel.doubling
                              (SpecModel.gradient 4 4) (Some 2) 2 1)
    = Ok sr_img.
Proof.
  eexists. split; [vm_compute; reflexivity|].
  apply predict_equals_stitch_once. vm_compute. reflexivity.
Defined.

(** ** [_predict] on a 2 x 6 image: three patches in groups of 2 and 1 *)

(** In a namespace that binds [self], a model that takes groups of two
    refuses the second group, of one patch: [_predict] raises the model's
    [InvalidArgumentError], which is no [ModelInferenceError] and carries
    no index range. *)
Lemma model_error_is_not_wrapped :
  let run := _predict (SpecModel.namespace SpecModel.pairs_only)
                      SpecModel.pairs_only (SpecModel.gradient 2 6)
                      (Some 2) 2 1 in
  map len (predict_calls (snd run)) = [2; 1] /\
  fst run = Raise (Raised "InvalidArgumentError" [1]) /\
  forall first last, fst run <> Raise (ModelInferenceError first last).
Proof.
  cbn zeta.
  assert (H : fst (_predict (SpecModel.namespace SpecModel.pairs_only)
                     SpecModel.pairs_only (SpecModel.gradient 2 6)
                     (Some 2) 2 1)
              = Raise (Raised "InvalidArgumentError" [1]))
    by (vm_compute; reflexivity).
  split; [vm_compute; reflexivity|]. split; [exact H|].
  intros first last Habs. rewrite H in Habs. discriminate.
Qed.

Lemma model_error_reaches_caller_unchanged_witness :
  let run := _predict (SpecModel.namespace SpecModel.pairs_only)
                      SpecModel.pairs_only (SpecModel.gradient 2 6)
                      (Some 2) 2 1 in
  let batch :=
    slice (SpecModel.patches_of
             (SpecModel.to_model_domain (SpecModel.gradient 2 6)) 2 1) 2 4 in
  let e := Raised "InvalidArgumentError" [1] in
  In (EvPredict batch) (snd run) /\
  predict SpecModel.pairs_only batch = Raise e /\
  fst run = Raise e /\
  exists t, snd run = t ++ [EvPredict batch].
Proof.
  cbn zeta.
  assert (Hin : In (EvPredict
                      (slice (SpecModel.patches_of
                                (SpecModel.to_model_domain
                                   (SpecModel.gradient 2 6)) 2 1) 2 4))
                   (snd (_predict (SpecModel.namespace SpecModel.pairs_only)
                           SpecModel.pairs_only (SpecModel.gradient 2 6)
                           (Some 2) 2 1))).
  { apply nth_error_In with (n := 9%nat). vm_compute. reflexivity. }
  assert (Hp : predict SpecModel.pairs_only
                 (slice (SpecModel.patches_of
                           (SpecModel.to_model_domain
                              (SpecModel.gradient 2 6)) 2 1) 2 4)
               = Raise (Raised "InvalidArgumentError" [1]))
    by (vm_compute; reflexivity).
  split; [exact Hin|]. split; [exact Hp|].
  exact (model_error_reaches_caller_unchanged
           (SpecModel.namespace SpecModel.pairs_only) SpecModel.pairs_only
           (SpecModel.gradient 2 6) (Some 2) 2 1 _ _ Hin Hp).
Defined.

(** ** The tiled path in the module as it is written *)

Lemma tiled_call_returns_no_array_witness :
  let run := _predict SpecModel.namespace_as_written SpecModel.doubling
                      (SpecModel.gradient 4 4) (Some 2) 2 1 in
  name_self SpecModel.namespace_as_written = Raise (NameError "self") /\
  run = (Raise (NameError "self"), []) /\
  forall sr_img, fst run <> Ok sr_img.
Proof.
  cbn zeta. split; [reflexivity|].
  apply (tiled_call_returns_no_array SpecModel.namespace_as_written
           (NameError "self") eq_refl SpecModel.doubling
           (SpecModel.gradient 4 4) 2 2 1).
  lia.
Defined.

Lemma no_group_reaches_the_model_witness :
  let img := SpecModel.gradient 4 4 in
  let patches := SpecModel.patches_of (SpecModel.to_model_domain img) 2 1 in
  let run := batch_loop SpecModel.namespace_as_written SpecModel.doubling
                        img patches [4; 4; 3] 2 1 in
  len patches = 4 /\
  run = (Raise (NameError "self"), []) /\
  predict_calls (snd run) = [] /\
  forall collect, fst run <> Ok collect.
Proof.
  cbn zeta. split; [reflexivity|].
  apply (no_group_reaches_the_model SpecModel.namespace_as_written
           (NameError "self") eq_refl SpecModel.doubling
           (SpecModel.gradient 4 4)
           (SpecModel.patches_of
              (SpecModel.to_model_domain (SpecModel.gradient 4 4)) 2 1)
           [4; 4; 3] 2 1).
  - vm_compute. discriminate.
  - lia.
Defined.



(** ** The specification's scenarios, scaled down *)

(** Round trip on exact multiples: a 4 x 4 image in patches of size 2
    through the identity model comes back unchanged. *)
Example identity_model_round_trip :
  fst (_predict (SpecModel.namespace (SpecModel.upscaling_model 1))
                (SpecModel.upscaling_model 1) (SpecModel.gradient 4 4)
                (Some 2) 2 1)
  = Ok (SpecModel.gradient 4 4).
Proof. vm_compute. reflexivity. Qed.

(** Scenario C: a 3 x 3 image in patches of size 2 is padded to 4 x 4 and
    gives 4 patches of side 4; the doubled canvas is cropped to 6 x 6, and
    the tiled result is the result of the single pass. *)
Example padded_image_is_cropped_to_target :
  let img := SpecModel.gradient 3 3 in
  let tiled_run := _predict SpecModel.world SpecModel.doubling img
                            (Some 2) 2 1 in
  let single_run := _predict SpecModel.world SpecModel.doubling img
                             None 2 1 in
  SpecModel.split_image_into_overlapping_patches img 2 1
  = Ok (SpecModel.patches_of img 2 1, [4; 4; 3]) /\
  map shape (SpecModel.patches_of img 2 1)
  = [[4; 4; 3]; [4; 4; 3]; [4; 4; 3]; [4; 4; 3]] /\
  fst tiled_run = fst single_run /\
  (exists sr_img, fst tiled_run = Ok sr_img /\ shape sr_img = [6; 6; 3]).
Proof.
  cbn zeta. split; [reflexivity|]. split; [reflexivity|].
  split; [vm_compute; reflexivity|].
  eexists. split; [vm_compute; reflexivity|reflexivity].
Qed.

(** In the namespace of the module as it is written the tiled path stops
    at the lookup of [self]; the single pass does not read that name. *)
Example tiled_path_as_written :
  _predict SpecModel.namespace_as_written SpecModel.doubling
           (SpecModel.gradient 4 4) (Some 2) 2 1
  = (Raise (NameError "self"), []) /\
  is_ok (fst (_predict SpecModel.namespace_as_written SpecModel.doubling
                       (SpecModel.gradient 4 4) None 2 1)) = true.
Proof. split; [reflexivity|vm_compute; reflexivity]. Qed.

(** * Further properties of [_predict] *)

(** ** What one turn of the loop does *)

Section LoopTrace.

Variable G : Namespace.
Variable model : Model.
Variable input_image_array : ndarray.
Variable patches : Batch.
Variable p_shape : list Z.
Variables batch_size padding_size : Z.

Lemma predict_group_trace (i : Z) (s : option Batch) (c : Batch)
  (t : list Event) :
  predict_group model patches batch_size i s = (Ok c, t) ->
  t = [EvPredict (slice patches i (i + batch_size))].
Proof.
  unfold predict_group, call_predict, call. intros Hg. inv_bind Hg.
  match goal with Hp : (_, _) = (_, _) |- _ => injection Hp as _ <- end.
  destruct (i =? 0); [|destruct s];
    unfold ret, lift, raise in Hg; injection Hg as _ <-; reflexivity.
Qed.

(** A turn that completes has logged once, called the model once on the
    slice at [i], stitched what is collected and processed the stitch. *)
Lemma loop_body_trace (i : Z) (s s' : option Batch) (t : list Event) :
  loop_body G model input_image_array patches p_shape batch_size
            padding_size i s = (Ok s', t) ->
  exists c sr_img,
    s' = Some c /\
    t = [EvLog INFO
           ("Processing patch: " ++ str i ++ "/" ++ str (len patches));
         EvPredict (slice patches i (i + batch_size));
         EvStitch c (scaled_shape p_shape (scale model))
                  (scaled_shape (shape input_image_array) (scale model))
                  (padding_size * scale model);
         EvProcessOutput sr_img].
Proof.
  unfold loop_body. intros Hb.
  inv_bind Hb. inv_bind Hb. inv_bind Hb. inv_bind Hb. inv_bind Hb.
  injection Hb as <- <-.
  repeat match goal with
  | Hc : lift _ = _ |- _ => unfold lift in Hc; injection Hc as _ <-
  | Hc : logger_info _ _ = _ |- _ =>
      unfold logger_info, call in Hc; injection Hc as _ <-
  | Hc : call_process_output _ _ = _ |- _ =>
      unfold call_process_output, call in Hc; injection Hc as _ <-
  | Hc : stitch_collected _ _ _ _ _ _ = _ |- _ =>
      unfold stitch_collected, call_stitch, call in Hc;
      injection Hc as _ <-
  | Hc : predict_group _ _ _ _ _ = _ |- _ =>
      apply predict_group_trace in Hc; subst
  end.
  eexists _, _. split; reflexivity.
Qed.

(** The loop that completes has made these four calls for every index, in
    the order of the indices. *)
Lemma for_each_predict_calls (indices : list Z) (s s' : option Batch)
  (t : list Event) :
  for_each indices
    (loop_body G model input_image_array patches p_shape batch_size
               padding_size) s = (Ok s', t) ->
  predict_calls t
  = map (fun i => slice patches i (i + batch_size)) indices /\
  List.length (stitch_calls t) = List.length indices.
Proof.
  revert s t. induction indices as [|i indices IH]; intros s t Hrun.
  - cbn in Hrun. injection Hrun as _ <-. now split.
  - cbn [for_each] in Hrun. inv_bind Hrun.
    match goal with
    | Hb : loop_body _ _ _ _ _ _ _ _ _ = _ |- _ =>
        apply loop_body_trace in Hb as (c & sr & -> & ->)
    end.
    destruct (IH _ _ Hrun) as [Hp Hs].
    rewrite predict_calls_app, stitch_calls_app, length_app, Hp, Hs.
    now split.
Qed.

End LoopTrace.

(** ** The groups the model receives *)

Lemma concat_chunks {X} (b count : nat) (l : list X) :
  (0 < b)%nat -> (List.length l <= count * b)%nat ->
  List.concat (map (fun k => firstn b (skipn (k * b) l)) (seq 0 count)) = l.
Proof.
  intros Hb. revert l. induction count as [|count IH]; intros l Hl.
  - destruct l; [reflexivity|cbn in Hl; lia].
  - cbn [seq map List.concat]. rewrite <- seq_shift, map_map.
    rewrite (map_ext _ (fun k => firstn b (skipn (k * b) (skipn b l)))).
    + rewrite IH by (rewrite length_skipn; lia).
      cbn [Nat.mul skipn]. apply firstn_skipn.
    + intros k. rewrite skipn_skipn. do 2 f_equal. lia.
Qed.

Section Groups.

Variable G : Namespace.
Variable model : Model.
Variable input_image_array : ndarray.
Variable patches : Batch.
Variable p_shape : list Z.
Variables batch_size padding_size : Z.

Lemma batch_loop_calls (s : option Batch) (t : list Event) :
  1 <= batch_size ->
  batch_loop G model input_image_array patches p_shape batch_size
             padding_size = (Ok s, t) ->
  predict_calls t =
  map (fun k => firstn (Z.to_nat batch_size)
                       (skipn (k * Z.to_nat batch_size) patches))
      (seq 0 (group_count (len patches) batch_size)) /\
  List.length (stitch_calls t) = group_count (len patches) batch_size.
Proof.
  intros Hb. assert (Hpos : 0 < batch_size) by lia.
  unfold batch_loop. rewrite py_range_groups by exact Hpos.
  rewrite bind_lift_Ok. intros Hrun.
  apply for_each_predict_calls in Hrun as [Hp Hs].
  rewrite length_map, length_seq in Hs. split; [|exact Hs].
  rewrite Hp, map_map. apply map_ext_in. intros k Hk.
  apply in_seq in Hk.
  pose proof (group_start_in_range (len patches) batch_size k Hpos
                ltac:(lia)) as Hstart.
  rewrite slice_window by lia. do 2 f_equal. lia.
Qed.

(** X1.  Where the name [self] resolves (in the module as it is written it
    does not, and the loop raises in its first turn): in a batch loop that
    completes, with a batch size of at least 1, the model is called
    [ceil(len(patches) / batch_size)] times, every group it receives holds
    between 1 and [batch_size] patches, and the groups in call order, put
    end to end, are the patches: each patch is sent to the model exactly
    once, in its place. *)
Theorem model_receives_each_patch_once (s : option Batch)
  (t : list Event) :
  name_self G = Ok tt ->
  1 <= batch_size ->
  batch_loop G model input_image_array patches p_shape batch_size
             padding_size = (Ok s, t) ->
  List.concat (predict_calls t) = patches /\
  Forall (fun group => 1 <= len group <= batch_size) (predict_calls t) /\
  List.length (predict_calls t) = group_count (len patches) batch_size.
Proof.
  intros _ Hb Hrun. assert (Hpos : 0 < batch_size) by lia.
  destruct (batch_loop_calls s t Hb Hrun) as [Hp _]. rewrite Hp.
  split; [|split].
  - apply concat_chunks; [lia|].
    pose proof (group_count_covers (len patches) batch_size Hpos
                  (len_nonneg _)) as Hcov.
    unfold len in Hcov. apply Nat2Z.inj_le.
    rewrite Nat2Z.inj_mul, Z2Nat.id by lia. exact Hcov.
  - apply Forall_forall. intros g Hg.
    apply in_map_iff in Hg as (k & <- & Hk). apply in_seq in Hk.
    pose proof (group_start_in_range (len patches) batch_size k Hpos
                  ltac:(lia)) as Hstart.
    unfold len in *. rewrite length_firstn, length_skipn. nia.
  - now rewrite length_map, length_seq.
Qed.

(** X2.  Where the name [self] resolves (in the module as it is written it
    does not, and the loop raises in its first turn): with a batch size of
    at least the number of patches, and at least one patch, a batch loop
    that completes has called the model exactly once, on all the
    patches. *)
Theorem large_batch_size_is_one_model_call (s : option Batch)
  (t : list Event) :
  name_self G = Ok tt ->
  patches <> [] -> len patches <= batch_size ->
  batch_loop G model input_image_array patches p_shape batch_size
             padding_size = (Ok s, t) ->
  predict_calls t = [patches].
Proof.
  intros _ Hne Hb Hrun.
  assert (Hn : 0 < len patches).
  { pose proof (len_nonneg patches). pose proof (len_nil_iff patches).
    destruct (Z.eq_dec (len patches) 0); [tauto|lia]. }
  destruct (batch_loop_calls s t ltac:(lia) Hrun) as [Hp _].
  assert (Hone : group_count (len patches) batch_size = 1%nat).
  { unfold group_count.
    replace ((len patches + batch_size - 1) / batch_size) with 1;
      [reflexivity|].
    apply Z.div_unique with (r := len patches - 1); lia. }
  rewrite Hp, Hone. cbn [seq map Nat.mul skipn].
  rewrite firstn_all2; [reflexivity|]. unfold len in Hb. lia.
Qed.

End Groups.

(** ** Tiled runs, from the split to the last stitch *)

Section TiledRuns.

Variable G : Namespace.
Variable model : Model.
Variable input_image_array : ndarray.
Variables batch_size padding_size : Z.

(** A tiled run that returns: the calls before the loop, the loop, the last
    stitch and the reverse codec. *)
Lemma tiled_run_inv (p : Z) (sr_img : ndarray) (t : list Event) :
  p <> 0 ->
  _predict G model input_image_array (Some p) batch_size padding_size
  = (Ok sr_img, t) ->
  exists lr_img patches p_shape collect t_loop stitched,
    process_array G input_image_array false = Ok lr_img /\
    split_image_into_overlapping_patches G lr_img p padding_size
    = Ok (patches, p_shape) /\
    batch_loop G model input_image_array patches p_shape batch_size
               padding_size = (Ok (Some collect), t_loop) /\
    process_output G stitched = Ok sr_img /\
    t = [EvLog INFO ("Patches of size " ++ str p);
         EvProcessArray input_image_array false;
         EvSplit lr_img p padding_size;
         EvLog INFO ("No. patches: " ++ str (len patches))]
        ++ t_loop
        ++ [EvStitch collect (scaled_shape p_shape (scale model))
                     (scaled_shape (shape input_image_array) (scale model))
                     (padding_size * scale model);
            EvProcessOutput stitched].
Proof.
  intros Hp Hrun. unfold _predict in Hrun.
  apply Z.eqb_neq in Hp. rewrite Hp in Hrun.
  inv_bind Hrun. unfold call_process_output, call in Hrun.
  injection Hrun as Hpo <-.
  match goal with Ht : tiled _ _ _ _ _ _ = _ |- _ => rename Ht into Htiled end.
  unfold tiled in Htiled.
  inv_bind Htiled. inv_bind Htiled. inv_bind Htiled. inv_bind Htiled.
  match goal with x : (Batch * list Z)%type |- _ => destruct x as [ps shp] end.
  inv_bind Htiled. inv_bind Htiled. inv_bind Htiled.
  match goal with c : option Batch |- _ => destruct c as [c|] end;
    [|discriminate].
  unfold stitch_collected, call_stitch, call in Htiled.
  injection Htiled as Hst <-.
  repeat match goal with
  | Hc : lift _ = _ |- _ => unfold lift in Hc; injection Hc as _ <-
  | Hc : logger_info _ _ = _ |- _ =>
      unfold logger_info, call in Hc; injection Hc as _ <-
  | Hc : call_process_array _ _ _ = _ |- _ =>
      unfold call_process_array, call in Hc; injection Hc as Hpa <-
  | Hc : call_split _ _ _ _ = _ |- _ =>
      unfold call_split, call in Hc; injection Hc as Hsplit <-
  end.
  eexists _, _, _, _, _, _.
  split; [exact Hpa|]. split; [exact Hsplit|].
  split; [eassumption|]. split; [exact Hpo|].
  cbn [app]. rewrite <- !app_assoc. reflexivity.
Qed.

(** X3.  Where the name [self] resolves (in the module as it is written it
    does not, and no tiled run returns): a tiled run of [_predict] that
    returns, with a batch size of at least 1, has called the model once per
    group and the stitcher once per group and once more:
    [ceil(len(patches) / batch_size)] model calls and one more stitcher
    call than that, for the patches the splitter returned. *)
Theorem tiled_run_stitches_once_per_group_and_once_more (p : Z)
  (sr_img : ndarray) (t : list Event) :
  name_self G = Ok tt ->
  p <> 0 -> 1 <= batch_size ->
  _predict G model input_image_array (Some p) batch_size padding_size
  = (Ok sr_img, t) ->
  exists lr_img patches p_shape,
    process_array G input_image_array false = Ok lr_img /\
    split_image_into_overlapping_patches G lr_img p padding_size
    = Ok (patches, p_shape) /\
    List.length (predict_calls t) = group_count (len patches) batch_size /\
    List.length (stitch_calls t)
    = S (group_count (len patches) batch_size) /\
    (1 <= group_count (len patches) batch_size)%nat.
Proof.
  intros _ Hp Hb Hrun.
  destruct (tiled_run_inv p sr_img t Hp Hrun)
    as (lr & patches & shp & c & tl & st & Hpa & Hsplit & Hloop & _ & ->).
  exists lr, patches, shp. split; [exact Hpa|]. split; [exact Hsplit|].
  destruct (batch_loop_calls G model input_image_array patches shp
              batch_size padding_size _ _ Hb Hloop) as [Hpc Hsc].
  assert (Hcount : (1 <= group_count (len patches) batch_size)%nat).
  { destruct (group_count (len patches) batch_size) eqn:Hg; [|lia].
    unfold batch_loop in Hloop.
    rewrite py_range_groups, Hg in Hloop by lia. discriminate. }
  rewrite !predict_calls_app, !stitch_calls_app, !length_app, Hpc, Hsc.
  rewrite length_map, length_seq. cbn. repeat split; lia.
Qed.

(** Up to the loop: what a tiled run has done when the names resolve and
    the logger, the forward codec and the splitter return. *)
Lemma tiled_up_to_loop (p : Z) (lr_img : ndarray) (patches : Batch)
  (p_shape : list Z) :
  name_self G = Ok tt ->
  (forall msg, logger G INFO msg = Ok tt) ->
  process_array G input_image_array false = Ok lr_img ->
  split_image_into_overlapping_patches G lr_img p padding_size
  = Ok (patches, p_shape) ->
  forall outcome : M (option Batch),
    batch_loop G model input_image_array patches p_shape batch_size
               padding_size = outcome ->
    snd outcome = [] -> (forall c, fst outcome <> Ok (Some c)) ->
    tiled G model input_image_array p batch_size padding_size
    = (match fst outcome with
       | Ok _ => Raise (UnboundLocalError "collect")
       | Raise e => Raise e
       end,
       [EvLog INFO ("Patches of size " ++ str p);
        EvProcessArray input_image_array false;
        EvSplit lr_img p padding_size;
        EvLog INFO ("No. patches: " ++ str (len patches))]).
Proof.
  intros Hself Hlog Hpa Hsplit [r tl] Hloop Htl Hnone.
  cbn in Htl, Hnone. subst tl.
  unfold tiled, logger_info, call_process_array, call_split.
  rewrite Hself, bind_lift_Ok, Hlog, bind_call_Ok, Hpa, bind_call_Ok.
  rewrite Hsplit, bind_call_Ok. cbv beta iota.
  rewrite bind_lift_Ok, Hlog, bind_call_Ok, Hloop. cbn [fst snd].
  destruct r as [[c|]|e]; [now destruct (Hnone c)|reflexivity|reflexivity].
Qed.

(** X4.  With a batch size of 0 a tiled run raises the [ValueError] of
    [range] after the split: the model, the stitcher and the reverse codec
    are not called. *)
Theorem zero_batch_size_is_a_ValueError (p : Z) (lr_img : ndarray)
  (patches : Batch) (p_shape : list Z) :
  p <> 0 ->
  name_self G = Ok tt ->
  (forall msg, logger G INFO msg = Ok tt) ->
  process_array G input_image_array false = Ok lr_img ->
  split_image_into_overlapping_patches G lr_img p padding_size
  = Ok (patches, p_shape) ->
  _predict G model input_image_array (Some p) 0 padding_size
  = (Raise ValueError,
     [EvLog INFO ("Patches of size " ++ str p);
      EvProcessArray input_image_array false;
      EvSplit lr_img p padding_size;
      EvLog INFO ("No. patches: " ++ str (len patches))]).
Proof.
  intros Hp Hself Hlog Hpa Hsplit.
  unfold _predict. apply Z.eqb_neq in Hp. rewrite Hp.
  unfold tiled, logger_info, call_process_array, call_split.
  rewrite Hself, bind_lift_Ok, Hlog, bind_call_Ok, Hpa, bind_call_Ok.
  rewrite Hsplit, bind_call_Ok. cbv beta iota.
  rewrite bind_lift_Ok, Hlog, bind_call_Ok. reflexivity.
Qed.

End TiledRuns.

Section EdgeRuns.

Variable G : Namespace.
Variable model : Model.
Variable input_image_array : ndarray.

Lemma batch_loop_never_entered (patches : Batch) (p_shape : list Z)
  (batch_size padding_size : Z) :
  batch_size < 0 \/ (patches = [] /\ batch_size <> 0) ->
  batch_loop G model input_image_array patches p_shape batch_size
             padding_size = (Ok None, []).
Proof.
  intros [Hneg|[-> Hnz]]; [now apply batch_loop_negative_step|].
  destruct (Z.lt_ge_cases batch_size 0) as [Hlt|Hge];
    [now apply batch_loop_negative_step|].
  unfold batch_loop. rewrite py_range_groups by lia.
  unfold group_count.
  replace ((len (@nil ndarray) + batch_size - 1) / batch_size) with 0;
    [reflexivity|].
  symmetry. apply Z.div_small. unfold len. cbn. lia.
Qed.

(** X5.  When the loop body never runs (the splitter returned no patch, or
    the batch size is negative), [collect] is still unbound after the loop
    and a tiled run raises [UnboundLocalError] without having called the
    model, the stitcher or the reverse codec. *)
Theorem collect_is_unbound_when_the_loop_never_runs (p : Z)
  (lr_img : ndarray) (patches : Batch) (p_shape : list Z)
  (batch_size padding_size : Z) :
  p <> 0 ->
  name_self G = Ok tt ->
  (forall msg, logger G INFO msg = Ok tt) ->
  process_array G input_image_array false = Ok lr_img ->
  split_image_into_overlapping_patches G lr_img p padding_size
  = Ok (patches, p_shape) ->
  batch_size < 0 \/ (patches = [] /\ batch_size <> 0) ->
  _predict G model input_image_array (Some p) batch_size padding_size
  = (Raise (UnboundLocalError "collect"),
     [EvLog INFO ("Patches of size " ++ str p);
      EvProcessArray input_image_array false;
      EvSplit lr_img p padding_size;
      EvLog INFO ("No. patches: " ++ str (len patches))]).
Proof.
  intros Hp Hself Hlog Hpa Hsplit Hnever.
  unfold _predict. apply Z.eqb_neq in Hp. rewrite Hp.
  rewrite (tiled_up_to_loop G model input_image_array batch_size
             padding_size p lr_img patches p_shape Hself Hlog Hpa Hsplit
             (Ok None, []));
    [reflexivity| |reflexivity|discriminate].
  now apply batch_loop_never_entered.
Qed.

(** X6.  On the single-pass path, a model that returns an empty batch
    makes [_predict] raise the [IndexError] of [model.predict(lr_img)[0]];
    the reverse codec is not called. *)
Theorem empty_prediction_is_an_IndexError (lr_img : Batch)
  (batch_size padding_size : Z) :
  process_array G input_image_array true = Ok lr_img ->
  predict model lr_img = Ok [] ->
  _predict G model input_image_array None batch_size padding_size
  = (Raise IndexError,
     [EvProcessArray input_image_array true; EvPredict lr_img]).
Proof.
  intros Hpa Hp.
  unfold _predict, single_pass, call_process_array, call_predict.
  now rewrite Hpa, bind_call_Ok, Hp, bind_call_Ok.
Qed.

(** X7.  Where the name [self] resolves (in the module as it is written it
    does not, and the loop raises in its first turn): for a model that
    maps a batch item by item, a batch loop that completes has collected
    the image of the patches under that map, in their order: the
    predictions do not depend on the batch size. *)
Theorem itemwise_model_ignores_batch_size (f : ndarray -> ndarray)
  (patches : Batch) (p_shape : list Z) (batch_size padding_size : Z)
  (collect : Batch) (t : list Event) :
  name_self G = Ok tt ->
  1 <= batch_size ->
  (forall batch, predict model batch = Ok (map f batch)) ->
  batch_loop G model input_image_array patches p_shape batch_size
             padding_size = (Ok (Some collect), t) ->
  collect = map f patches.
Proof.
  intros _ Hb Hf Hrun.
  apply (itemwise_model_maps_patches G model input_image_array patches
           p_shape batch_size padding_size Hb) with (t := t);
    trivial.
  intros batch out Hout. rewrite Hf in Hout. injection Hout as <-.
  unfold len. now rewrite length_map.
Qed.

End EdgeRuns.

(** * Further properties of [_forward_pass] *)

Section ForwardPassCases.

Variable G : Namespace.
Variable file_path : string.

Lemma forward_pass_is_inert :
  let run := _forward_pass G file_path in
  (forall sr_img, fst run <> Ok (Some sr_img)) /\
  predict_calls (snd run) = [] /\
  split_calls (snd run) = [] /\
  stitch_calls (snd run) = [].
Proof.
  cbn zeta.
  destruct (imread G file_path) as [lr|e] eqn:Hread.
  - destruct (getitem (shape lr) 2) as [channels|e] eqn:Hitem.
    + destruct (Z.eq_dec channels 3) as [->|Hne].
      * rewrite (forward_pass_three_channels G file_path lr Hread Hitem).
        now repeat split.
      * rewrite (forward_pass_not_three_channels G file_path lr channels
                   Hread Hitem Hne).
        destruct (logger G ERROR _); now repeat split.
    + replace (_forward_pass G file_path)
        with (@Raise (option ndarray) e, [EvImread file_path]);
        [now repeat split|].
      unfold _forward_pass, call_imread, lift.
      rewrite Hread, bind_call_Ok. cbv beta. now rewrite Hitem.
  - replace (_forward_pass G file_path)
      with (@Raise (option ndarray) e, [EvImread file_path]);
      [now repeat split|].
    unfold _forward_pass, call_imread. now rewrite Hread.
Qed.

(** X9.  [_forward_pass] never returns an image and never reaches the
    model: whatever [imread] gives, the result is an exception or [None],
    and neither the splitter, nor the model, nor the stitcher is called. *)
Theorem forward_pass_never_returns_an_image :
  let run := _forward_pass G file_path in
  (forall sr_img, fst run <> Ok (Some sr_img)) /\
  predict_calls (snd run) = [] /\
  split_calls (snd run) = [] /\
  stitch_calls (snd run) = [].
Proof. exact forward_pass_is_inert. Qed.

(** X10.  An image whose third axis is not of length 3 is logged as an
    error, once, under the name of its file, and [_forward_pass] returns
    [None] (or the exception of the logger, if the logger raises). *)
Theorem other_channel_counts_return_None (lr_img : ndarray)
  (channels : Z) :
  imread G file_path = Ok lr_img ->
  getitem (shape lr_img) 2 = Ok channels ->
  channels <> 3 ->
  let msg := (file_path ++ " is not an image with 3 channels.")%string in
  _forward_pass G file_path =
  (match logger G ERROR msg with Ok _ => Ok None | Raise e => Raise e end,
   [EvImread file_path; EvLog ERROR msg]).
Proof. apply forward_pass_not_three_channels. Qed.

(** X11.  An image with three axes and 3 channels ends [_forward_pass]
    with the [TypeError] of [lr_img.size[1]], whatever its height and
    width. *)
Theorem three_channels_end_in_TypeError (lr_img : ndarray) (h w : Z) :
  imread G file_path = Ok lr_img ->
  shape lr_img = [h; w; 3] ->
  _forward_pass G file_path = (Raise TypeError, [EvImread file_path]).
Proof.
  intros Hread Hshape.
  apply forward_pass_three_channels with (lr_img := lr_img); trivial.
  now rewrite Hshape.
Qed.

(** X12.  An image with fewer than three axes (a grey-level image) ends
    [_forward_pass] with the [IndexError] of [lr_img.shape[2]]; nothing is
    logged. *)
Theorem fewer_than_three_axes_end_in_IndexError (lr_img : ndarray) :
  imread G file_path = Ok lr_img ->
  (List.length (shape lr_img) < 3)%nat ->
  _forward_pass G file_path = (Raise IndexError, [EvImread file_path]).
Proof.
  intros Hread Hrank.
  unfold _forward_pass, call_imread, lift. rewrite Hread, bind_call_Ok.
  assert (Hitem : getitem (shape lr_img) 2 = Raise IndexError).
  { unfold getitem. cbn [Z.ltb Z.compare].
    destruct (len (shape lr_img) <=? 2) eqn:E; [reflexivity|].
    apply Z.leb_gt in E. unfold len in E. lia. }
  now rewrite Hitem.
Qed.

End ForwardPassCases.

(** * The predictor object: [__init__], [_make_basename], [_load_weights],
      [get_predictions] and [main] *)

(** ** The monad of the host code *)

Lemma hbind_Ok {X Y} (x : X) (t : list HostEvent) (f : X -> HM Y) :
  hbind (Ok x, t) f = (fst (f x), t ++ snd (f x)).
Proof. unfold hbind. destruct (f x); reflexivity. Qed.

Lemma hbind_call_Ok {X Y} (ev : HostEvent) (x : X) (f : X -> HM Y) :
  hbind (hcall ev (Ok x)) f = (fst (f x), ev :: snd (f x)).
Proof. unfold hcall. now rewrite hbind_Ok. Qed.

Lemma hbind_ret {X Y} (x : X) (f : X -> HM Y) : hbind (hret x) f = f x.
Proof. unfold hret. rewrite hbind_Ok. now destruct (f x). Qed.

Lemma hbind_lift_Ok {X Y} (x : X) (f : X -> HM Y) :
  hbind (hlift (Ok x)) f = f x.
Proof. apply hbind_ret. Qed.

Lemma hbind_Ok_inv {X Y} (m : HM X) (f : X -> HM Y) (y : Y)
  (t : list HostEvent) :
  hbind m f = (Ok y, t) ->
  exists x t1 t2, m = (Ok x, t1) /\ f x = (Ok y, t2) /\ t = t1 ++ t2.
Proof.
  destruct m as [[x|e] t1]; [|discriminate].
  rewrite hbind_Ok. destruct (f x) as [r t2] eqn:E. cbn.
  intros [= -> <-]. now exists x, t1, t2.
Qed.

Lemma snd_hbind {X Y} (m : HM X) (f : X -> HM Y) :
  snd (hbind m f) =
  match fst m with Ok x => snd m ++ snd (f x) | Raise e => snd m end.
Proof. destruct m as [[x|e] t]; [rewrite hbind_Ok|]; reflexivity. Qed.

Lemma fst_hbind {X Y} (m : HM X) (f : X -> HM Y) :
  fst (hbind m f) =
  match fst m with Ok x => fst (f x) | Raise e => Raise e end.
Proof. destruct m as [[x|e] t]; [rewrite hbind_Ok|]; reflexivity. Qed.

Ltac inv_hbind H :=
  let x := fresh "x" in
  let t1 := fresh "t" in
  let t2 := fresh "t" in
  let H1 := fresh H in
  apply hbind_Ok_inv in H as (x & t1 & t2 & H1 & H & ->).

(** ** Strings: [rfind], slices and the suffix of a name *)

Lemma string_length_append (s1 s2 : string) :
  String.length (s1 ++ s2) = (String.length s1 + String.length s2)%nat.
Proof. induction s1 as [|a s1 IH]; cbn; [reflexivity|now rewrite IH]. Qed.

Lemma rfind_bound (c : ascii) (s : string) :
  -1 <= rfind c s < Z.of_nat (String.length s).
Proof.
  induction s as [|a s IH]; cbn [rfind String.length]; [lia|].
  destruct (0 <=? rfind c s) eqn:E; [apply Z.leb_le in E; lia|].
  destruct (Ascii.eqb a c); lia.
Qed.

Lemma rfind_last (c : ascii) (stem rest : string) :
  rfind c rest = -1 ->
  rfind c (stem ++ String c rest) = Z.of_nat (String.length stem).
Proof.
  intros Hrest. induction stem as [|a stem IH].
  - cbn. rewrite Hrest. cbn. now rewrite Ascii.eqb_refl.
  - cbn [String.append rfind String.length]. rewrite IH.
    destruct (0 <=? Z.of_nat (String.length stem)) eqn:E;
      [lia|apply Z.leb_gt in E; lia].
Qed.

Lemma substring_whole (s : string) : substring 0 (String.length s) s = s.
Proof. induction s as [|a s IH]; cbn; [reflexivity|now rewrite IH]. Qed.

Lemma substring_after (s1 s2 : string) (n : nat) :
  substring (String.length s1) n (s1 ++ s2) = substring 0 n s2.
Proof. induction s1 as [|a s1 IH]; cbn; [reflexivity|exact IH]. Qed.

Lemma substring_split (s : string) (n : nat) :
  (n <= String.length s)%nat ->
  s = (substring 0 n s ++ substring n (String.length s - n) s)%string.
Proof.
  revert n. induction s as [|a s IH]; intros [|n] Hn; cbn in *;
    try reflexivity; try lia.
  - now rewrite substring_whole.
  - f_equal. apply IH. lia.
Qed.

Lemma length_substring_prefix (s : string) (n : nat) :
  (n <= String.length s)%nat -> String.length (substring 0 n s) = n.
Proof.
  revert n. induction s as [|a s IH]; intros [|n] Hn; cbn in *;
    try reflexivity; try lia.
  f_equal. apply IH. lia.
Qed.

(** The suffix of a name is empty or cuts the name after a non-empty
    stem. *)
Lemma suffix_of_name_cases (name : string) :
  suffix_of_name name = ""%string \/
  exists stem,
    stem <> ""%string /\ name = (stem ++ suffix_of_name name)%string.
Proof.
  unfold suffix_of_name.
  pose proof (rfind_bound "." name) as Hb.
  destruct ((0 <? rfind "." name)
            && (rfind "." name <? Z.of_nat (String.length name) - 1))
    eqn:E; [right|now left].
  apply andb_true_iff in E as [Hpos _]. apply Z.ltb_lt in Hpos.
  exists (substring 0 (Z.to_nat (rfind "." name)) name). split.
  - intros Hnil. apply (f_equal String.length) in Hnil.
    rewrite length_substring_prefix in Hnil by lia. cbn in Hnil. lia.
  - apply substring_split. lia.
Qed.

Lemma suffix_of_stem_and_extension (stem rest : string) :
  stem <> ""%string -> rest <> ""%string -> rfind "." rest = -1 ->
  suffix_of_name (stem ++ String "." rest) = String "." rest.
Proof.
  intros Hstem Hrest Hdot. unfold suffix_of_name.
  rewrite rfind_last by exact Hdot.
  rewrite string_length_append. cbn [String.length].
  assert (0 < String.length stem)%nat by (destruct stem; cbn; [easy|lia]).
  assert (0 < String.length rest)%nat by (destruct rest; cbn; [easy|lia]).
  replace (0 <? Z.of_nat (String.length stem)) with true
    by (symmetry; apply Z.ltb_lt; lia).
  replace (Z.of_nat (String.length stem) <? _) with true
    by (symmetry; apply Z.ltb_lt; lia).
  cbn [andb]. rewrite Nat2Z.id.
  replace (String.length stem + S (String.length rest)
           - String.length stem)%nat
    with (String.length (String "." rest)) by (cbn; lia).
  rewrite substring_after. apply substring_whole.
Qed.

(** X13.  A file is admitted as an image exactly when its name is a
    non-empty stem followed by [.jpeg], [.jpg] or [.png], in these very
    letters: a name that is only an extension, or an extension in capitals,
    is not admitted. *)
Theorem admitted_files_have_a_stem_and_an_extension (f : Path) :
  admitted default_extensions f = true <->
  exists stem ext,
    path_name f = (stem ++ ext)%string /\ stem <> ""%string /\
    In ext default_extensions.
Proof.
  unfold admitted, path_suffix. split.
  - intros Hadm. apply existsb_exists in Hadm as (ext & Hin & Heq).
    apply String.eqb_eq in Heq.
    destruct (suffix_of_name_cases (path_name f)) as [Hnil|(stem & Hs & Hn)].
    + rewrite Hnil in Heq. subst ext.
      cbn in Hin. intuition discriminate.
    + subst ext. exists stem, (suffix_of_name (path_name f)).
      now repeat split.
  - intros (stem & ext & Hname & Hstem & Hin).
    apply existsb_exists. exists ext. split; [exact Hin|].
    apply String.eqb_eq. rewrite Hname.
    cbn in Hin. destruct Hin as [<-|[<-|[<-|[]]]];
      now apply suffix_of_stem_and_extension.
Qed.

Example admitted_examples :
  map (fun name => admitted default_extensions (path_of_string name))
      ["data/cat.png"; "data/cat.PNG"; "data/.png"; "data/a.b.jpg";
       "data/cat.jpeg."; "data/cat"; "cat.png/"; "data/..png"]
  = [true; false; false; true; false; false; true; true].
Proof. reflexivity. Qed.

Example path_examples :
  path_str (path_join (path_of_string "./data//output/") "input") =
  "data/output/input" /\
  path_str (path_join (path_of_string "data/output") "/tmp/x") = "/tmp/x" /\
  path_name (path_of_string "data/input/") = "input" /\
  path_name (path_of_string ".") = "" /\
  path_str (path_parent (path_of_string "weights/rdn.hdf5")) = "weights" /\
  path_str (path_parent (path_of_string "rdn.hdf5")) = ".".
Proof. repeat split; reflexivity. Qed.

(** ** [__init__] *)

Section Init.

Variable G : Namespace.
Variable H : Host.
Variables input_dir_arg output_dir_arg : string.
Variable verbose : bool.

(** X14.  A predictor that [__init__] has built holds at least one image
    file, and its image files are the entries of the input directory with
    an admitted suffix, in the order [iterdir] gave them. *)
Theorem constructed_predictor_has_images (self : Predictor)
  (t : list HostEvent) :
  __init__ G H input_dir_arg output_dir_arg verbose = (Ok self, t) ->
  img_ls self <> [] /\
  Forall (fun f => admitted default_extensions f = true) (img_ls self) /\
  exists files,
    iterdir H (path_of_string input_dir_arg) = Ok files /\
    img_ls self = filter (admitted default_extensions) files.
Proof.
  unfold __init__. intros Hrun.
  inv_hbind Hrun. inv_hbind Hrun. inv_hbind Hrun. inv_hbind Hrun.
  inv_hbind Hrun. inv_hbind Hrun.
  unfold hret in Hrun. injection Hrun as <- _. cbn [img_ls].
  match goal with
  | Hi : hcall (EvIterdir _) _ = (Ok ?files, _) |- _ =>
      unfold hcall in Hi; injection Hi as Hiter _; rename files into fs
  end.
  match goal with
  | Hc : (if len _ <? 1 then _ else _) = _ |- _ => rename Hc into Hcheck
  end.
  split; [|split].
  - intros Hnil. rewrite Hnil in Hcheck.
    cbn [len List.length Z.of_nat Z.ltb Z.compare] in Hcheck.
    inv_hbind Hcheck. discriminate Hcheck.
  - apply Forall_forall. intros f Hf. now apply filter_In in Hf.
  - now exists fs.
Qed.

(** X15.  When no entry of the input directory has an admitted suffix,
    [__init__] builds no predictor and creates no directory; it raises
    [ValueError] once the logger has been set up and has taken the error
    message. *)
Theorem no_image_file_is_a_ValueError (files : list Path) :
  iterdir H (path_of_string input_dir_arg) = Ok files ->
  filter (admitted default_extensions) files = [] ->
  let run := __init__ G H input_dir_arg output_dir_arg verbose in
  (forall self, fst run <> Ok self) /\
  (forall p, ~ In (EvMkdir p) (snd run)) /\
  (get_logger H = Ok tt ->
   (verbose = false -> set_level H 40 = Ok tt) ->
   logger G ERROR no_images_message = Ok tt ->
   fst run = Raise ValueError).
Proof.
  intros Hiter Hnone. cbn zeta.
  unfold __init__, error, of_M, logger_error, call, hcall, hret, hraise.
  rewrite Hiter.
  destruct (get_logger H) as [[]|e1]; destruct verbose;
    destruct (set_level H 40) as [[]|e2];
    destruct (logger G ERROR no_images_message) as [[]|e3];
    cbv beta iota delta [hbind negb fst snd app map];
    rewrite ?Hnone; cbn [len List.length Z.of_nat Z.ltb Z.compare fst snd];
    (split; [discriminate|split]);
    try (intros p Hp; cbn in Hp; intuition discriminate);
    try (intros H1 H2 H3; first [reflexivity | discriminate
                                | now specialize (H2 eq_refl)]).
Qed.

End Init.

(** ** [_make_basename] *)

Lemma string_le_trans (s1 s2 s3 : string) :
  string_le s1 s2 -> string_le s2 s3 -> string_le s1 s3.
Proof.
  unfold string_le, String.leb. revert s2 s3.
  induction s1 as [|a s1 IH]; intros [|b s2] [|c s3]; cbn; try congruence.
  unfold Ascii.compare.
  destruct (N.compare_spec (N_of_ascii a) (N_of_ascii b)) as [E1|L1|G1];
  destruct (N.compare_spec (N_of_ascii b) (N_of_ascii c)) as [E2|L2|G2];
  try congruence.
  - rewrite E1, E2, N.compare_refl. apply IH.
  - intros _ _. rewrite E1. apply N.compare_lt_iff in L2. now rewrite L2.
  - intros _ _. rewrite <- E2. apply N.compare_lt_iff in L1. now rewrite L1.
  - intros _ _. assert (L : (N_of_ascii a < N_of_ascii c)%N) by lia.
    apply N.compare_lt_iff in L. now rewrite L.
Qed.

Lemma insert_sorted_perm (k : string) (l : list string) :
  Permutation (insert_sorted k l) (k :: l).
Proof.
  induction l as [|a l IH]; cbn; [reflexivity|].
  destruct (String.leb k a); [reflexivity|].
  rewrite IH. apply perm_swap.
Qed.

Lemma np_sort_perm (l : list string) : Permutation (np_sort l) l.
Proof.
  induction l as [|a l IH]; cbn; [reflexivity|].
  rewrite insert_sorted_perm. now constructor.
Qed.

Lemma insert_sorted_sorted (k : string) (l : list string) :
  Sorted string_le l -> Sorted string_le (insert_sorted k l).
Proof.
  induction l as [|a l IH]; intros Hs; cbn.
  - repeat constructor.
  - destruct (String.leb k a) eqn:E.
    + constructor; [exact Hs|]. now constructor.
    + apply Sorted_inv in Hs as [Hs Hhd].
      assert (Hak : string_le a k).
      { destruct (String.leb_total a k) as [Hle|Hle]; [exact Hle|].
        rewrite Hle in E. discriminate. }
      constructor; [now apply IH|].
      destruct l as [|b l]; cbn.
      * now constructor.
      * destruct (String.leb k b); constructor; trivial.
        now apply HdRel_inv in Hhd.
Qed.

Lemma np_sort_sorted (l : list string) : Sorted string_le (np_sort l).
Proof.
  induction l as [|a l IH]; cbn; [constructor|].
  now apply insert_sorted_sorted.
Qed.

Lemma sorted_permutation_unique (l1 l2 : list string) :
  StronglySorted string_le l1 -> StronglySorted string_le l2 ->
  Permutation l1 l2 -> l1 = l2.
Proof.
  revert l2. induction l1 as [|a l1 IH]; intros l2 H1 H2 Hperm.
  - now apply Permutation_nil in Hperm.
  - destruct l2 as [|b l2];
      [now apply Permutation_sym, Permutation_nil in Hperm|].
    apply StronglySorted_inv in H1 as [H1 Ha].
    apply StronglySorted_inv in H2 as [H2 Hb].
    rewrite Forall_forall in Ha, Hb.
    assert (Hab : a = b).
    { assert (Hina : In a (b :: l2))
        by (eapply Permutation_in; [exact Hperm|now left]).
      assert (Hinb : In b (a :: l1))
        by (eapply Permutation_in;
            [apply Permutation_sym; exact Hperm|now left]).
      destruct Hina as [->|Hina]; [reflexivity|].
      destruct Hinb as [<-|Hinb]; [reflexivity|].
      apply String.leb_antisym; [now apply Ha|now apply Hb]. }
    subst b. f_equal. apply IH; trivial.
    now apply Permutation_cons_inv in Hperm.
Qed.

Lemma np_sort_of_permutation (l1 l2 : list string) :
  Permutation l1 l2 -> np_sort l1 = np_sort l2.
Proof.
  intros Hperm. apply sorted_permutation_unique.
  - apply Sorted_StronglySorted; [|apply np_sort_sorted].
    intros x y z. apply string_le_trans.
  - apply Sorted_StronglySorted; [|apply np_sort_sorted].
    intros x y z. apply string_le_trans.
  - rewrite !np_sort_perm. exact Hperm.
Qed.

Lemma dict_get_In {V} (d : list (string * V)) (k : string) (v : V) :
  NoDup (map fst d) -> (dict_get d k = Some v <-> In (k, v) d).
Proof.
  induction d as [|[k' v'] d IH]; cbn; intros Hnd.
  - split; [discriminate|tauto].
  - apply NoDup_cons_iff in Hnd as [Hnotin Hnd].
    destruct (String.eqb k' k) eqn:E.
    + apply String.eqb_eq in E. subst k'. split.
      * intros [= ->]. now left.
      * intros [[= ->]|Hin]; [reflexivity|].
        exfalso. apply Hnotin. apply in_map_iff. now exists (k, v).
    + apply String.eqb_neq in E. rewrite (IH Hnd). split; [tauto|].
      intros [[= -> _]|Hin]; [congruence|exact Hin].
Qed.

Lemma dict_get_of_key {V} (d : list (string * V)) (k : string) :
  In k (map fst d) -> exists v, dict_get d k = Some v.
Proof.
  induction d as [|[k' v'] d IH]; cbn; [tauto|].
  intros Hin. destruct (String.eqb k' k) eqn:E; [now eexists|].
  apply String.eqb_neq in E. destruct Hin as [Hk|Hin]; [congruence|].
  now apply IH.
Qed.

Lemma dict_get_of_permutation {V} (d1 d2 : list (string * V)) (k : string) :
  NoDup (map fst d1) -> Permutation d1 d2 ->
  dict_get d1 k = dict_get d2 k.
Proof.
  intros Hnd Hperm.
  assert (Hnd2 : NoDup (map fst d2))
    by (eapply Permutation_NoDup; [apply Permutation_map; exact Hperm|
        exact Hnd]).
  destruct (dict_get d1 k) as [v|] eqn:E1.
  - apply dict_get_In in E1; [|exact Hnd]. symmetry.
    apply dict_get_In; [exact Hnd2|]. eapply Permutation_in; eauto.
  - destruct (dict_get d2 k) as [v|] eqn:E2; [|reflexivity].
    apply dict_get_In in E2; [|exact Hnd2].
    apply (Permutation_in _ (Permutation_sym Hperm)) in E2.
    apply dict_get_In in E2; [|exact Hnd]. congruence.
Qed.

Lemma map_res_ext {X Y} (f g : X -> Res Y) (xs : list X) :
  (forall x, In x xs -> f x = g x) -> map_res f xs = map_res g xs.
Proof.
  induction xs as [|x xs IH]; intros Hfg; [reflexivity|].
  cbn. rewrite Hfg by now left. rewrite IH; [reflexivity|].
  intros y Hy. apply Hfg. now right.
Qed.

Lemma map_res_all_Ok {X Y} (f : X -> Res Y) (xs : list X) :
  (forall x, In x xs -> exists y, f x = Ok y) ->
  exists ys, map_res f xs = Ok ys /\ List.length ys = List.length xs.
Proof.
  induction xs as [|x xs IH]; intros Hf; [now exists []|].
  destruct (Hf x) as [y Hy]; [now left|].
  destruct IH as (ys & Hys & Hlen); [intros z Hz; apply Hf; now right|].
  exists (y :: ys). cbn. rewrite Hy, Hys. split; [reflexivity|].
  cbn. now rewrite Hlen.
Qed.

(** X16.  The base name does not depend on the order in which the
    parameters were put into [model.params]: two generators of the same
    name whose parameters are the same items in another order have the
    same base name. *)
Theorem basename_ignores_the_order_of_params (name : string)
  (params params' : list (string * Z)) (lw lw' : Path -> Res unit) :
  NoDup (map fst params) -> Permutation params params' ->
  _make_basename (mk_Generator name params lw)
  = _make_basename (mk_Generator name params' lw').
Proof.
  intros Hnd Hperm. unfold _make_basename. cbn [gen_params gen_name].
  unfold np_sort_keys.
  rewrite (np_sort_of_permutation (map np_str (map fst params))
             (map np_str (map fst params')))
    by (now do 2 apply Permutation_map).
  rewrite (map_res_ext _
             (fun param =>
                match dict_get params' param with
                | Some p => Ok (param ++ str p)%string
                | None => Raise KeyError
                end)); [reflexivity|].
  intros k _. now rewrite (dict_get_of_permutation params params').
Qed.

(** X17.  For parameter names that do not end in a NUL character (which
    an array of strings does not keep), [_make_basename] never raises the
    [KeyError] of [model.params[param]]: it returns the name of the model
    followed by one field for each parameter, the fields joined by
    ["-"]. *)
Theorem basename_has_one_field_per_param (model : Generator) :
  (forall k, In k (map fst (gen_params model)) -> np_str k = k) ->
  exists fields,
    _make_basename model
    = Ok (String.concat "-" (gen_name model :: fields)) /\
    List.length fields = List.length (gen_params model).
Proof.
  intros Hkeys. unfold _make_basename, np_sort_keys.
  rewrite (map_ext_in np_str (fun k => k) _ Hkeys), map_id.
  destruct (map_res_all_Ok
              (fun param =>
                 match dict_get (gen_params model) param with
                 | Some p => Ok (param ++ str p)%string
                 | None => Raise KeyError
                 end)
              (np_sort (map fst (gen_params model))))
    as (fields & Hf & Hlen).
  - intros k Hk.
    apply (Permutation_in _ (np_sort_perm _)) in Hk.
    destruct (dict_get_of_key _ _ Hk) as [v Hv]. rewrite Hv. now eexists.
  - exists fields. rewrite Hf. split; [reflexivity|].
    rewrite Hlen.
    rewrite (Permutation_length (np_sort_perm _)). apply length_map.
Qed.

(** A parameter name that ends in a NUL character is looked up without
    it. *)
Example trailing_nul_is_a_KeyError :
  _make_basename
    (mk_Generator "rdn" [(String Ascii.zero EmptyString, 1)]
                  (fun _ => Ok tt))
  = Raise KeyError.
Proof. reflexivity. Qed.

Example default_basename :
  _make_basename (mk_Generator "rdn" default_arch_params (fun _ => Ok tt))
  = Ok "rdn-C6-D20-G64-G064-x2".
Proof. reflexivity. Qed.

(** ** [_load_weights] *)

Lemma dict_get_set_same {V} (d : list (string * V)) (k : string) (v : V) :
  dict_get (dict_set d k v) k = Some v.
Proof.
  induction d as [|[k' v'] d IH]; cbn.
  - now rewrite String.eqb_refl.
  - destruct (String.eqb k' k) eqn:E; cbn.
    + now rewrite String.eqb_refl.
    + now rewrite E.
Qed.

Lemma dict_get_set_other {V} (d : list (string * V)) (k k' : string)
  (v : V) :
  k' <> k -> dict_get (dict_set d k v) k' = dict_get d k'.
Proof.
  intros Hne. induction d as [|[k0 v0] d IH]; cbn.
  - apply String.eqb_neq in Hne. rewrite String.eqb_sym in Hne.
    now rewrite Hne.
  - destruct (String.eqb k0 k) eqn:E; cbn.
    + apply String.eqb_eq in E. subst k0.
      apply String.eqb_neq in Hne. rewrite String.eqb_sym in Hne.
      now rewrite Hne.
    + destruct (String.eqb k0 k'); [reflexivity|exact IH].
Qed.

Lemma dict_set_nonempty {V} (d : list (string * V)) (k : string) (v : V) :
  dict_set d k v <> [].
Proof.
  destruct d as [|[k' v'] d]; cbn; [discriminate|].
  destruct (String.eqb k' k); discriminate.
Qed.

Section LoadWeights.

Variable G : Namespace.
Variable H : Host.
Variable self : Predictor.
Variable generator : Generator.
Variable wp : Path.
Hypothesis weights_path_set : weights_path self = Some wp.

Lemma load_weights_inv (conf : Dict) (t : list HostEvent) :
  _load_weights G H self generator = (Ok conf, t) ->
  let session_config_path :=
    path_join (path_parent wp) "session_config.yml" in
  exists d,
    conf = dict_set d "pre-trained-weights" (YStr (path_name wp)) /\
    load_weights generator wp = Ok tt /\
    In (EvLoadWeights wp) t /\
    ((path_exists H session_config_path = Ok false /\ d = []) \/
     (path_exists H session_config_path = Ok true /\
      exists text,
        read_text H session_config_path = Ok text /\
        yaml_load H text = Ok (YMap d))).
Proof.
  unfold _load_weights. rewrite weights_path_set. intros Hrun. cbn zeta.
  inv_hbind Hrun. inv_hbind Hrun. inv_hbind Hrun. inv_hbind Hrun.
  match goal with
  | Hl : hcall (EvLoadWeights _) _ = _ |- _ =>
      unfold hcall in Hl; injection Hl as Hload <-
  end.
  match goal with
  | He : call_exists _ _ = (Ok ?b, _) |- _ =>
      unfold call_exists, hcall in He; injection He as Hex _;
      rename b into there
  end.
  match goal with
  | Hc : (if there then _ else _) = (Ok ?c, _) |- _ =>
      rename Hc into Hconf; rename c into loaded
  end.
  unfold hlift in Hrun. injection Hrun as Hupd _.
  destruct loaded as [| | | |d]; try discriminate Hupd.
  cbn in Hupd. injection Hupd as <-.
  exists d. split; [reflexivity|].
  split; [match goal with u : unit |- _ => now destruct u end|].
  split; [apply in_or_app; right; apply in_or_app; left; now left|].
  destruct there.
  - right. split; [exact Hex|].
    inv_hbind Hconf. unfold hcall in Hconf0, Hconf.
    injection Hconf0 as Hread _. injection Hconf as Hyaml _.
    eexists. split; [exact Hread|exact Hyaml].
  - left. split; [exact Hex|].
    inv_hbind Hconf. unfold hret in Hconf. now injection Hconf as <- _.
Qed.

(** X18.  The configuration that [_load_weights] returns always holds the
    name of the weights file under ['pre-trained-weights'], so it is never
    empty; its other entries are those of [session_config.yml] beside the
    weights file, and there are none when that file does not exist.  The
    weights have been loaded by then. *)
Theorem loaded_configuration_names_the_weights (conf : Dict)
  (t : list HostEvent) :
  _load_weights G H self generator = (Ok conf, t) ->
  let session_config_path :=
    path_join (path_parent wp) "session_config.yml" in
  dict_get conf "pre-trained-weights" = Some (YStr (path_name wp)) /\
  conf <> [] /\
  In (EvLoadWeights wp) t /\
  exists d,
    (forall k, k <> "pre-trained-weights" ->
               dict_get conf k = dict_get d k) /\
    ((path_exists H session_config_path = Ok false /\ d = []) \/
     (path_exists H session_config_path = Ok true /\
      exists text,
        read_text H session_config_path = Ok text /\
        yaml_load H text = Ok (YMap d))).
Proof.
  intros Hrun. cbn zeta.
  destruct (load_weights_inv conf t Hrun) as (d & -> & _ & Hin & Hd).
  split; [apply dict_get_set_same|].
  split; [apply dict_set_nonempty|].
  split; [exact Hin|].
  exists d. split; [|exact Hd].
  intros k Hk. now apply dict_get_set_other.
Qed.

(** X19.  A [session_config.yml] whose content is not a mapping (an empty
    file loads as [None]) makes [_load_weights] raise [AttributeError] at
    [conf.update], after the weights have been loaded. *)
Theorem session_config_must_be_a_mapping (text : string)
  (loaded : yaml_value) :
  let session_config_path :=
    path_join (path_parent wp) "session_config.yml" in
  (forall msg, logger G INFO msg = Ok tt) ->
  load_weights generator wp = Ok tt ->
  path_exists H session_config_path = Ok true ->
  read_text H session_config_path = Ok text ->
  yaml_load H text = Ok loaded ->
  (forall d, loaded <> YMap d) ->
  _load_weights G H self generator
  = (Raise AttributeError,
     [Inner (EvLog INFO ("Loaded weights from " ++ newline ++ " > "
                           ++ path_str wp));
      EvLoadWeights wp;
      EvExists session_config_path;
      EvReadText session_config_path;
      EvYamlLoad text]).
Proof.
  cbn zeta. intros Hlog Hload Hex Hread Hyaml Hnot.
  unfold _load_weights, info, of_M, logger_info, call, call_exists, hcall.
  rewrite weights_path_set, Hlog, Hload, Hex.
  cbv beta iota delta [hbind fst snd map app]. rewrite Hread.
  cbv beta iota delta [hbind fst snd map app]. rewrite Hyaml.
  cbv beta iota delta [hbind fst snd map app hlift].
  destruct loaded as [| | | |d]; try reflexivity.
  now destruct (Hnot d).
Qed.

End LoadWeights.

(** ** [get_predictions] *)

Lemma imwrite_calls_app (t1 t2 : list HostEvent) :
  imwrite_calls (t1 ++ t2) = imwrite_calls t1 ++ imwrite_calls t2.
Proof.
  induction t1 as [|ev t1 IH]; [reflexivity|].
  destruct ev; cbn; now rewrite ?IH.
Qed.

Lemma inner_events_app (t1 t2 : list HostEvent) :
  inner_events (t1 ++ t2) = inner_events t1 ++ inner_events t2.
Proof.
  induction t1 as [|ev t1 IH]; [reflexivity|].
  destruct ev; cbn; now rewrite ?IH.
Qed.

Lemma inner_events_of_inner (t : list Event) :
  inner_events (map Inner t) = t /\ imwrite_calls (map Inner t) = [].
Proof.
  induction t as [|ev t [IH1 IH2]]; [now split|].
  cbn. now rewrite IH1, IH2.
Qed.

Lemma inert_nil : inert [].
Proof. split; [constructor|reflexivity]. Qed.

Lemma inert_app (t1 t2 : list HostEvent) :
  inert t1 -> inert t2 -> inert (t1 ++ t2).
Proof.
  intros [Hw1 Hp1] [Hw2 Hp2]. unfold inert.
  rewrite imwrite_calls_app, inner_events_app, predict_calls_app, Hp1, Hp2.
  split; [now apply Forall_app|reflexivity].
Qed.

Lemma inert_of_events (ok : HostEvent -> bool) (t : list HostEvent) :
  (forall ev, ok ev = true -> inert [ev]) ->
  forallb ok t = true -> inert t.
Proof.
  intros Hok. induction t as [|ev t IH]; [intros _; apply inert_nil|].
  cbn [forallb]. intros Hall. apply andb_true_iff in Hall as [Hev Hall].
  apply (inert_app [ev] t); [now apply Hok|now apply IH].
Qed.

Lemma setup_event_is_inert (ev : HostEvent) :
  is_setup_event ev = true -> inert [ev].
Proof.
  destruct ev as [[]| | | | | | | | | | | | | |]; try discriminate;
    intros _; (split; [constructor|reflexivity]).
Qed.

Lemma init_event_is_inert (ev : HostEvent) :
  is_init_event ev = true -> inert [ev].
Proof.
  destruct ev as [[]| | | | | | | | | | | | | |]; try discriminate;
    intros _; (split; [constructor|reflexivity]).
Qed.

(** A property of traces that holds of the empty trace and of the traces
    put end to end holds of a run when it holds of its steps. *)
Section TraceProperty.

Variable P : list HostEvent -> Prop.
Hypothesis P_nil : P [].
Hypothesis P_app : forall t1 t2, P t1 -> P t2 -> P (t1 ++ t2).

Lemma trace_hbind {X Y} (m : HM X) (f : X -> HM Y) :
  P (snd m) ->
  (forall x t, m = (Ok x, t) -> P (snd (f x))) ->
  P (snd (hbind m f)).
Proof.
  intros Hm Hf. destruct m as [[x|e] t]; [|exact Hm].
  rewrite hbind_Ok. cbn [snd] in *. apply P_app; [exact Hm|].
  now apply (Hf x t).
Qed.

Lemma trace_hfor_each {I S} (xs : list I) (body : I -> S -> HM S) :
  (forall x s, P (snd (body x s))) ->
  forall s, P (snd (hfor_each xs body s)).
Proof.
  intros Hbody. induction xs as [|x xs IH]; intros s; [exact P_nil|].
  cbn [hfor_each]. apply trace_hbind; auto.
Qed.

End TraceProperty.

Lemma all_events_app (ok : HostEvent -> bool) (t1 t2 : list HostEvent) :
  all_events ok t1 -> all_events ok t2 -> all_events ok (t1 ++ t2).
Proof.
  unfold all_events. intros H1 H2. now rewrite forallb_app, H1, H2.
Qed.

Ltac events_steps :=
  repeat match goal with
  | |- all_events ?ok (snd (hbind _ _)) =>
      apply (trace_hbind (all_events ok) (all_events_app ok));
      [ | intros ? ? _]
  | |- all_events _ (snd (if ?b then _ else _)) => destruct b
  | |- all_events _ (snd (match ?x with [] => _ | _ :: _ => _ end)) =>
      destruct x
  | |- all_events _ (snd _) => reflexivity
  end.

Section Runs.

Variable G : Namespace.
Variable H : Host.

Lemma init_events (input_dir_arg output_dir_arg : string) (verbose : bool) :
  all_events is_init_event
    (snd (__init__ G H input_dir_arg output_dir_arg verbose)).
Proof. unfold __init__. cbv zeta. events_steps. Qed.

Lemma load_weights_events (self : Predictor) (generator : Generator) :
  all_events is_setup_event (snd (_load_weights G H self generator)).
Proof.
  unfold _load_weights. destruct (weights_path self); cbv zeta;
    events_steps.
Qed.

Lemma prepare_output_events (self : Predictor) (generator : Generator)
  (weights_path_arg : string) :
  all_events is_setup_event
    (snd (prepare_output G H self generator weights_path_arg)).
Proof.
  unfold prepare_output. cbv zeta.
  apply (trace_hbind (all_events is_setup_event)
           (all_events_app is_setup_event));
    [apply load_weights_events|].
  intros conf t _. events_steps.
Qed.

Lemma process_file_inert (out_folder img_path : Path) (n : nat) :
  inert (snd (process_file G H out_folder img_path n)).
Proof.
  unfold process_file. cbv zeta.
  apply (trace_hbind inert inert_app);
    [split; [constructor|reflexivity]|intros _ _ _].
  apply (trace_hbind inert inert_app);
    [split; [constructor|reflexivity]|intros _ _ _].
  apply (trace_hbind inert inert_app).
  - unfold of_M, inert. cbn [snd].
    destruct (inner_events_of_inner
                (snd (_forward_pass G (path_str img_path)))) as [-> ->].
    split; [constructor|].
    apply (forward_pass_is_inert G (path_str img_path)).
  - intros sr_img t Hrun. unfold of_M in Hrun. injection Hrun as Hres _.
    destruct sr_img as [sr|].
    + now destruct (proj1 (forward_pass_is_inert G (path_str img_path)) sr).
    + repeat (apply (trace_hbind inert inert_app);
              [split; [repeat constructor|reflexivity]|intros _ _ _]).
      apply inert_nil.
Qed.

(** X20.  In no run of [get_predictions] is an image given to [imwrite]
    or a batch given to the model: whatever the files hold, every call of
    [imwrite] that is made passes [None], and [model.predict] is not
    called. *)
Theorem get_predictions_writes_no_image (self : Predictor)
  (generator : Generator) (weights_path_arg : string) :
  let run := get_predictions G H self generator weights_path_arg in
  Forall (fun c => snd c = None) (imwrite_calls (snd run)) /\
  predict_calls (inner_events (snd run)) = [].
Proof.
  cbn zeta. change (inert (snd (get_predictions G H self generator
                                                weights_path_arg))).
  unfold get_predictions.
  apply (trace_hbind inert inert_app).
  - apply (inert_of_events is_setup_event);
      [apply setup_event_is_inert|apply prepare_output_events].
  - intros out_folder t _.
    apply (trace_hbind inert inert_app); [|intros; apply inert_nil].
    apply (trace_hfor_each inert inert_nil inert_app).
    intros. apply process_file_inert.
Qed.

End Runs.

Section CompletedRuns.

Variable G : Namespace.
Variable H : Host.

(** X21.  When the set-up of [get_predictions] returns, the last thing it
    has done is to dump the configuration to [weights_config.yml] in the
    output folder: the guard [if weights_conf:] never fails, because the
    configuration always holds the name of the weights file.  The output
    folder is [output_dir / basename / timestamp]. *)
Theorem configuration_is_always_dumped (self : Predictor)
  (generator : Generator) (weights_path_arg : string) (out_folder : Path)
  (t : list HostEvent) :
  prepare_output G H self generator weights_path_arg = (Ok out_folder, t) ->
  exists conf basename timestamp before,
    _make_basename generator = Ok basename /\
    get_timestamp H = Ok timestamp /\
    out_folder = path_join (path_join (output_dir self) basename) timestamp /\
    dict_get conf "pre-trained-weights"
    = Some (YStr (path_name (path_of_string weights_path_arg))) /\
    t = before
        ++ [EvYamlDump conf (path_join out_folder "weights_config.yml")].
Proof.
  unfold prepare_output. cbv zeta. intros Hrun.
  inv_hbind Hrun. inv_hbind Hrun. inv_hbind Hrun. inv_hbind Hrun.
  inv_hbind Hrun. inv_hbind Hrun. inv_hbind Hrun.
  unfold hret in Hrun. injection Hrun as <- <-.
  match goal with
  | Hl : _load_weights _ _ ?self' _ = (Ok ?c, ?tl) |- _ =>
      destruct (load_weights_inv G H self' generator
                  (path_of_string weights_path_arg) eq_refl c tl Hl)
        as (d & Hconf & _);
      rename c into conf
  end.
  match goal with
  | Hb : hlift (_make_basename _) = (Ok ?b, _) |- _ =>
      unfold hlift in Hb; injection Hb as Hbase _; rename b into basename
  end.
  match goal with
  | Hs : hcall EvGetTimestamp _ = (Ok ?s, _) |- _ =>
      unfold hcall in Hs; injection Hs as Hts _; rename s into timestamp
  end.
  match goal with
  | Hd : match conf with [] => _ | _ :: _ => _ end = _ |- _ =>
      rename Hd into Hdump
  end.
  exists conf, basename, timestamp.
  destruct conf as [|item conf'].
  - exfalso. symmetry in Hconf. now apply dict_set_nonempty in Hconf.
  - unfold hcall in Hdump. injection Hdump as _ <-.
    eexists. split; [exact Hbase|]. split; [exact Hts|].
    split; [reflexivity|]. split.
    + rewrite Hconf. apply dict_get_set_same.
    + rewrite app_nil_r, !app_assoc. reflexivity.
Qed.

Lemma process_file_inv (out_folder img_path : Path) (n n' : nat)
  (t : list HostEvent) :
  process_file G H out_folder img_path n = (Ok n', t) ->
  fst (_forward_pass G (path_str img_path)) = Ok None /\
  imwrite H (path_join out_folder (path_name img_path)) None = Ok tt.
Proof.
  unfold process_file. cbv zeta. intros Hrun.
  inv_hbind Hrun. inv_hbind Hrun. inv_hbind Hrun. inv_hbind Hrun.
  inv_hbind Hrun. inv_hbind Hrun. inv_hbind Hrun.
  match goal with
  | Hf : of_M (_forward_pass _ _) = (Ok ?r, _) |- _ =>
      unfold of_M in Hf; injection Hf as Hres _; rename r into sr_img
  end.
  assert (sr_img = None) as ->.
  { destruct sr_img as [sr|]; [|reflexivity].
    now destruct (proj1 (forward_pass_is_inert G (path_str img_path)) sr). }
  split; [exact Hres|].
  match goal with
  | Hw : hcall (EvImwrite _ _) _ = (Ok ?u, _) |- _ =>
      unfold hcall in Hw; injection Hw as Hw _; destruct u; exact Hw
  end.
Qed.

Lemma setup_writes_nothing (t : list HostEvent) :
  all_events is_setup_event t -> imwrite_calls t = [].
Proof.
  unfold all_events. induction t as [|ev t IH]; [reflexivity|].
  cbn [forallb]. intros Hev. apply andb_true_iff in Hev as [Hev Hrest].
  destruct ev as [[]| | | | | | | | | | | | | |];
    try discriminate Hev; cbn; now apply IH.
Qed.

Lemma process_file_writes_at_most_once (out_folder img_path : Path)
  (n : nat) :
  (List.length (imwrite_calls (snd (process_file G H out_folder img_path n)))
   <= 1)%nat.
Proof.
  unfold process_file, info, of_M, logger_info, call, hcall, hret.
  cbv zeta.
  destruct (_forward_pass G (path_str img_path)) as [[sr|e] tf];
    repeat match goal with
    | |- context [logger G INFO ?m] =>
        destruct (logger G INFO m) as [[]|?]
    end;
    cbn [hbind fst snd map app imwrite_calls];
    try match goal with
    | |- context [imwrite H ?p ?i] => destruct (imwrite H p i) as [[]|?]
    end;
    cbn [hbind fst snd map app imwrite_calls];
    rewrite ?imwrite_calls_app, ?(proj2 (inner_events_of_inner tf));
    cbn; lia.
Qed.

(** X22.  Where [imwrite] refuses [None], as [imageio.imwrite] does, no
    run of [get_predictions] on a predictor with at least one image file
    completes, whatever the files hold: [_forward_pass] never hands back
    an image, so the first call of [imwrite], if the run gets that far, is
    refused, and [imwrite] is called at most once. *)
Theorem get_predictions_never_completes (self : Predictor)
  (generator : Generator) (weights_path_arg : string) :
  (forall p, is_ok (imwrite H p None) = false) ->
  img_ls self <> [] ->
  let run := get_predictions G H self generator weights_path_arg in
  (forall u, fst run <> Ok u) /\
  (List.length (imwrite_calls (snd run)) <= 1)%nat.
Proof.
  intros Hrefuse Hfiles. cbn zeta. unfold get_predictions.
  pose proof (prepare_output_events G H self generator weights_path_arg)
    as Hsetup.
  apply setup_writes_nothing in Hsetup.
  destruct (prepare_output G H self generator weights_path_arg)
    as [[out_folder|e] t_setup]; cbn [snd] in Hsetup.
  - rewrite hbind_Ok.
    destruct (img_ls self) as [|f files]; [contradiction|].
    cbn [hfor_each].
    pose proof (process_file_writes_at_most_once out_folder f 0) as Hone.
    destruct (process_file G H out_folder f 0) as [[n'|e] t] eqn:Hfile.
    + apply process_file_inv in Hfile as [_ Hw].
      specialize (Hrefuse (path_join out_folder (path_name f))).
      rewrite Hw in Hrefuse. discriminate Hrefuse.
    + cbn [hbind fst snd] in *. split; [discriminate|].
      now rewrite imwrite_calls_app, Hsetup.
  - cbn [hbind fst snd]. split; [discriminate|].
    rewrite Hsetup. cbn. lia.
Qed.

(** X23.  Once the set-up of [get_predictions] has completed, a first image
    file that decodes to an array of shape [(h, w, 3)] ends the run with
    the [TypeError] of [_forward_pass]: the file has been read, nothing
    has been written, and no other file is looked at. *)
Theorem first_rgb_image_ends_the_run (self : Predictor)
  (generator : Generator) (weights_path_arg : string) (out_folder : Path)
  (t_setup : list HostEvent) (f : Path) (files : list Path)
  (lr_img : ndarray) (h w : Z) :
  prepare_output G H self generator weights_path_arg
  = (Ok out_folder, t_setup) ->
  img_ls self = f :: files ->
  logger G INFO ("Processing file" ++ newline ++ " > " ++ path_str f)
  = Ok tt ->
  imread G (path_str f) = Ok lr_img ->
  shape lr_img = [h; w; 3] ->
  get_predictions G H self generator weights_path_arg
  = (Raise TypeError,
     t_setup
     ++ [Inner (EvLog INFO ("Processing file" ++ newline ++ " > "
                              ++ path_str f));
         EvTime 0;
         Inner (EvImread (path_str f))]).
Proof.
  intros Hsetup Hfiles Hlog Hread Hshape.
  unfold get_predictions. rewrite Hsetup, hbind_Ok, Hfiles.
  cbn [hfor_each]. unfold process_file, info, of_M, logger_info, call, hcall.
  cbv zeta. rewrite Hlog.
  rewrite (forward_pass_three_channels G (path_str f) lr_img Hread)
    by (now rewrite Hshape).
  reflexivity.
Qed.

End CompletedRuns.

Section Main.

Variable G : Namespace.
Variable H : Host.

(** X24.  With a model name other than the one of the shipped weights,
    [main] builds no model and predicts nothing: it never returns, and it
    calls nothing beyond what the constructor of [Predictor] calls and the
    logger.  Where the free name [self] of line 32 is unbound and the
    constructor has returned, the exception of that name is the outcome,
    not the [ValueError] of line 33, and nothing has been logged after
    the constructor. *)
Theorem unknown_model_name_builds_no_model (args : Args) :
  arg_model_name args <> default_model_name ->
  let run := main G H args in
  (forall u, fst run <> Ok u) /\
  all_events is_init_event (snd run) /\
  (forall pred t e,
     __init__ G H (arg_input args) (arg_output args) (arg_verbose args)
     = (Ok pred, t) ->
     name_self G = Raise e ->
     run = (Raise e, t)).
Proof.
  intros Hname. apply String.eqb_neq in Hname.
  pose proof (init_events G H (arg_input args) (arg_output args)
                (arg_verbose args)) as Hev.
  unfold main. rewrite Hname.
  destruct (__init__ G H (arg_input args) (arg_output args)
              (arg_verbose args)) as [[pred|e] t].
  - cbn [snd] in Hev. rewrite hbind_Ok.
    destruct (name_self G) as [[]|e]; cbn [fst snd].
    + unfold hlift, error, of_M, hraise, logger_error, call.
      destruct (logger G ERROR _) as [[]|e]; cbn.
      * split; [discriminate|]. split.
        -- apply all_events_app; [exact Hev|reflexivity].
        -- discriminate.
      * split; [discriminate|]. split.
        -- apply all_events_app; [exact Hev|reflexivity].
        -- discriminate.
    + unfold hlift. cbn.
      split; [discriminate|]. split.
      * apply all_events_app; [exact Hev|reflexivity].
      * intros ? ? ? [= _ <-] [= <-]. now rewrite app_nil_r.
  - cbn. split; [discriminate|]. split; [exact Hev|]. discriminate.
Qed.

End Main.

(** * The further properties on the examples *)

(** ** [_predict] *)

Lemma model_receives_each_patch_once_witness :
  let run := batch_loop SpecModel.world SpecModel.doubling Scenario.img
                        Scenario.patches [4; 4; 3] 3 1 in
  is_ok (fst run) = true /\
  List.concat (predict_calls (snd run)) = Scenario.patches /\
  Forall (fun group => 1 <= len group <= 3) (predict_calls (snd run)) /\
  List.length (predict_calls (snd run))
  = group_count (len Scenario.patches) 3.
Proof.
  cbn zeta. split; [vm_compute; reflexivity|].
  eapply (model_receives_each_patch_once SpecModel.world SpecModel.doubling
           Scenario.img Scenario.patches [4; 4; 3] 3 1 _
           (snd (batch_loop SpecModel.world SpecModel.doubling Scenario.img
                            Scenario.patches [4; 4; 3] 3 1))
           eq_refl ltac:(lia)).
  vm_compute. reflexivity.
Defined.

Lemma large_batch_size_is_one_model_call_witness :
  let run := batch_loop SpecModel.world SpecModel.doubling Scenario.img
                        Scenario.patches [4; 4; 3] 10 1 in
  len Scenario.patches = 4 /\
  predict_calls (snd run) = [Scenario.patches].
Proof.
  cbn zeta. split; [reflexivity|].
  eapply (large_batch_size_is_one_model_call SpecModel.world
           SpecModel.doubling Scenario.img Scenario.patches [4; 4; 3] 10 1 _
           (snd (batch_loop SpecModel.world SpecModel.doubling Scenario.img
                            Scenario.patches [4; 4; 3] 10 1))).
  - reflexivity.
  - vm_compute. discriminate.
  - vm_compute. discriminate.
  - vm_compute. reflexivity.
Defined.

Lemma tiled_run_stitches_once_per_group_and_once_more_witness :
  let run := _predict SpecModel.world SpecModel.doubling Scenario.img
                      (Some 2) 3 1 in
  is_ok (fst run) = true /\
  exists lr_img patches p_shape,
    process_array SpecModel.world Scenario.img false = Ok lr_img /\
    split_image_into_overlapping_patches SpecModel.world lr_img 2 1
    = Ok (patches, p_shape) /\
    List.length (predict_calls (snd run)) = group_count (len patches) 3 /\
    List.length (stitch_calls (snd run))
    = S (group_count (len patches) 3) /\
    (1 <= group_count (len patches) 3)%nat.
Proof.
  cbn zeta. split; [vm_compute; reflexivity|].
  eapply (tiled_run_stitches_once_per_group_and_once_more SpecModel.world
           SpecModel.doubling Scenario.img 3 1 2 _
           (snd (_predict SpecModel.world SpecModel.doubling Scenario.img
                          (Some 2) 3 1))
           eq_refl ltac:(lia) ltac:(lia)).
  vm_compute. reflexivity.
Defined.

Lemma zero_batch_size_is_a_ValueError_witness :
  _predict SpecModel.world SpecModel.doubling Scenario.img (Some 2) 0 1
  = (Raise ValueError,
     [EvLog INFO ("Patches of size " ++ str 2);
      EvProcessArray Scenario.img false;
      EvSplit Scenario.lr 2 1;
      EvLog INFO ("No. patches: " ++ str (len Scenario.patches))]).
Proof.
  apply (zero_batch_size_is_a_ValueError SpecModel.world SpecModel.doubling
           Scenario.img 1 2 Scenario.lr Scenario.patches [4; 4; 3]).
  - lia.
  - reflexivity.
  - intros msg. reflexivity.
  - reflexivity.
  - vm_compute. reflexivity.
Defined.

Lemma collect_is_unbound_when_the_loop_never_runs_witness :
  _predict SpecModel.world SpecModel.doubling Scenario.img (Some 2) (-1) 1
  = (Raise (UnboundLocalError "collect"),
     [EvLog INFO ("Patches of size " ++ str 2);
      EvProcessArray Scenario.img false;
      EvSplit Scenario.lr 2 1;
      EvLog INFO ("No. patches: " ++ str (len Scenario.patches))]).
Proof.
  apply (collect_is_unbound_when_the_loop_never_runs SpecModel.world
           SpecModel.doubling Scenario.img 2 Scenario.lr Scenario.patches
           [4; 4; 3] (-1) 1).
  - lia.
  - reflexivity.
  - intros msg. reflexivity.
  - reflexivity.
  - vm_compute. reflexivity.
  - left. lia.
Defined.

Lemma empty_prediction_is_an_IndexError_witness :
  _predict SpecModel.world Scenario.silent Scenario.img None 10 2
  = (Raise IndexError,
     [EvProcessArray Scenario.img true; EvPredict [Scenario.lr]]).
Proof.
  apply (empty_prediction_is_an_IndexError SpecModel.world Scenario.silent
           Scenario.img [Scenario.lr] 10 2).
  - reflexivity.
  - reflexivity.
Defined.

Lemma itemwise_model_ignores_batch_size_witness :
  let run := batch_loop SpecModel.world SpecModel.doubling Scenario.img
                        Scenario.patches [4; 4; 3] 3 1 in
  exists collect,
    fst run = Ok (Some collect) /\
    collect = map (SpecModel.upscale 2) Scenario.patches.
Proof.
  cbn zeta. eexists. split; [vm_compute; reflexivity|].
  apply (itemwise_model_ignores_batch_size SpecModel.world
           SpecModel.doubling Scenario.img (SpecModel.upscale 2)
           Scenario.patches [4; 4; 3] 3 1 _
           (snd (batch_loop SpecModel.world SpecModel.doubling Scenario.img
                            Scenario.patches [4; 4; 3] 3 1))
           eq_refl ltac:(lia)).
  - intros batch. reflexivity.
  - vm_compute. reflexivity.
Defined.

(** ** [_forward_pass] *)

Lemma other_channel_counts_return_None_witness :
  _forward_pass Scenario.world "rgba.png"
  = (Ok None,
     [EvImread "rgba.png";
      EvLog ERROR "rgba.png is not an image with 3 channels."]).
Proof.
  apply (other_channel_counts_return_None Scenario.world "rgba.png"
           (SpecModel.blank [3; 3; 4] 7%Q) 4).
  - reflexivity.
  - reflexivity.
  - lia.
Defined.

Lemma three_channels_end_in_TypeError_witness :
  _forward_pass Scenario.world "tall.png"
  = (Raise TypeError, [EvImread "tall.png"]).
Proof.
  apply (three_channels_end_in_TypeError Scenario.world "tall.png"
           (SpecModel.blank [2000; 10; 3] 7%Q) 2000 10).
  - reflexivity.
  - reflexivity.
Defined.

Lemma fewer_than_three_axes_end_in_IndexError_witness :
  _forward_pass Scenario.world "grey.png"
  = (Raise IndexError, [EvImread "grey.png"]).
Proof.
  apply (fewer_than_three_axes_end_in_IndexError Scenario.world "grey.png"
           (SpecModel.blank [5; 5] 7%Q)).
  - reflexivity.
  - cbn. lia.
Defined.

(** ** [__init__], [_make_basename] and [_load_weights] *)

Lemma constructed_predictor_has_images_witness :
  let run := __init__ Scenario.world (Scenario.host Scenario.session)
                      "." "out" true in
  exists self,
    fst run = Ok self /\
    img_ls self <> [] /\
    Forall (fun f => admitted default_extensions f = true) (img_ls self) /\
    exists files,
      iterdir (Scenario.host Scenario.session) (path_of_string ".")
      = Ok files /\
      img_ls self = filter (admitted default_extensions) files.
Proof.
  cbn zeta. eexists. split; [vm_compute; reflexivity|].
  apply (constructed_predictor_has_images Scenario.world
           (Scenario.host Scenario.session) "." "out" true _
           (snd (__init__ Scenario.world (Scenario.host Scenario.session)
                          "." "out" true))).
  vm_compute. reflexivity.
Defined.

Lemma no_image_file_is_a_ValueError_witness :
  let run := __init__ Scenario.world (Scenario.host Scenario.session)
                      "docs" "out" true in
  (forall self, fst run <> Ok self) /\
  (forall p, ~ In (EvMkdir p) (snd run)) /\
  (get_logger (Scenario.host Scenario.session) = Ok tt ->
   (true = false -> set_level (Scenario.host Scenario.session) 40 = Ok tt) ->
   logger Scenario.world ERROR no_images_message = Ok tt ->
   fst run = Raise ValueError).
Proof.
  apply (no_image_file_is_a_ValueError Scenario.world
           (Scenario.host Scenario.session) "docs" "out" true
           (map (path_join (path_of_string "docs"))
                ["notes.txt"; "cat.PNG"; ".png"])).
  - reflexivity.
  - reflexivity.
Defined.

Lemma basename_ignores_the_order_of_params_witness :
  _make_basename (mk_Generator "rdn" default_arch_params (fun _ => Ok tt))
  = _make_basename
      (mk_Generator "rdn" (rev default_arch_params) (fun _ => Ok tt)).
Proof.
  apply (basename_ignores_the_order_of_params "rdn" default_arch_params
           (rev default_arch_params)).
  - cbn. repeat constructor; cbn; intuition discriminate.
  - apply Permutation_rev.
Defined.

Lemma basename_has_one_field_per_param_witness :
  exists fields,
    _make_basename Scenario.rdn
    = Ok (String.concat "-" ("rdn" :: fields)) /\
    List.length fields = 5%nat.
Proof.
  apply (basename_has_one_field_per_param Scenario.rdn).
  intros k Hk. cbn in Hk.
  destruct Hk as [<-|[<-|[<-|[<-|[<-|[]]]]]]; reflexivity.
Defined.

Lemma loaded_configuration_names_the_weights_witness :
  let run := _load_weights Scenario.world (Scenario.host Scenario.session)
                           Scenario.loaded_predictor Scenario.rdn in
  exists conf,
    fst run = Ok conf /\
    dict_get conf "pre-trained-weights"
    = Some (YStr "rdn-C6-D20-G64-G064-x2_ArtefactCancelling_epoch219.hdf5")
    /\
    conf <> [] /\
    In (EvLoadWeights Scenario.weights) (snd run).
Proof.
  cbn zeta. eexists. split; [vm_compute; reflexivity|].
  match goal with
  | |- dict_get ?conf _ = _ /\ _ =>
      destruct (loaded_configuration_names_the_weights Scenario.world
                  (Scenario.host Scenario.session)
                  Scenario.loaded_predictor Scenario.rdn Scenario.weights
                  eq_refl conf
                  (snd (_load_weights Scenario.world
                          (Scenario.host Scenario.session)
                          Scenario.loaded_predictor Scenario.rdn)))
        as (Hname & Hne & Hin & _)
  end.
  - vm_compute. reflexivity.
  - split; [exact Hname|]. split; [exact Hne|exact Hin].
Defined.

Lemma session_config_must_be_a_mapping_witness :
  let session_config_path :=
    path_join (path_parent Scenario.weights) "session_config.yml" in
  _load_weights Scenario.world (Scenario.host YNone)
                Scenario.loaded_predictor Scenario.rdn
  = (Raise AttributeError,
     [Inner (EvLog INFO ("Loaded weights from " ++ newline ++ " > "
                           ++ path_str Scenario.weights));
      EvLoadWeights Scenario.weights;
      EvExists session_config_path;
      EvReadText session_config_path;
      EvYamlLoad "lr_patch_size: 32"]).
Proof.
  apply (session_config_must_be_a_mapping Scenario.world
           (Scenario.host YNone) Scenario.loaded_predictor Scenario.rdn
           Scenario.weights eq_refl "lr_patch_size: 32" YNone).
  - intros msg. reflexivity.
  - reflexivity.
  - reflexivity.
  - reflexivity.
  - reflexivity.
  - intros d. discriminate.
Defined.

(** ** [get_predictions] and [main] *)

Lemma configuration_is_always_dumped_witness :
  let run := prepare_output Scenario.world (Scenario.host Scenario.session)
                            Scenario.predictor Scenario.rdn
                            default_model_name in
  exists out_folder,
    fst run = Ok out_folder /\
    exists conf basename timestamp before,
      _make_basename Scenario.rdn = Ok basename /\
      get_timestamp (Scenario.host Scenario.session) = Ok timestamp /\
      out_folder
      = path_join (path_join (output_dir Scenario.predictor) basename)
                  timestamp /\
      dict_get conf "pre-trained-weights"
      = Some (YStr (path_name (path_of_string default_model_name))) /\
      snd run
      = before
        ++ [EvYamlDump conf (path_join out_folder "weights_config.yml")].
Proof.
  cbn zeta. eexists. split; [vm_compute; reflexivity|].
  apply (configuration_is_always_dumped Scenario.world
           (Scenario.host Scenario.session) Scenario.predictor Scenario.rdn
           default_model_name).
  vm_compute. reflexivity.
Defined.

Lemma get_predictions_never_completes_witness :
  let run := get_predictions Scenario.world
               (Scenario.strict_host Scenario.session) Scenario.predictor
               Scenario.rdn default_model_name in
  fst run = Raise ValueError /\
  (forall u, fst run <> Ok u) /\
  (List.length (imwrite_calls (snd run)) <= 1)%nat.
Proof.
  cbn zeta. split; [vm_compute; reflexivity|].
  apply (get_predictions_never_completes Scenario.world
           (Scenario.strict_host Scenario.session) Scenario.predictor
           Scenario.rdn default_model_name).
  - intros p. reflexivity.
  - discriminate.
Defined.

Lemma first_rgb_image_ends_the_run_witness :
  let H := Scenario.strict_host Scenario.session in
  let f := path_of_string "small.png" in
  get_predictions Scenario.world H Scenario.rgb_predictor Scenario.rdn
                  default_model_name
  = (Raise TypeError,
     snd (prepare_output Scenario.world H Scenario.rgb_predictor
                         Scenario.rdn default_model_name)
     ++ [Inner (EvLog INFO ("Processing file" ++ newline ++ " > "
                              ++ path_str f));
         EvTime 0;
         Inner (EvImread (path_str f))]).
Proof.
  apply (first_rgb_image_ends_the_run Scenario.world
           (Scenario.strict_host Scenario.session) Scenario.rgb_predictor
           Scenario.rdn default_model_name
           (path_of_string "out/rdn-C6-D20-G64-G064-x2/2019-03-01_1200")
           _ (path_of_string "small.png") [path_of_string "rgba.png"]
           (SpecModel.gradient 4 4) 4 4).
  - vm_compute. reflexivity.
  - reflexivity.
  - reflexivity.
  - reflexivity.
  - reflexivity.
Defined.

Lemma unknown_model_name_builds_no_model_witness :
  let G := SpecModel.namespace_as_written in
  let H := Scenario.host Scenario.session in
  let run := main G H Scenario.other_model in
  (forall u, fst run <> Ok u) /\
  all_events is_init_event (snd run) /\
  (forall pred t e,
     __init__ G H "." "out" true = (Ok pred, t) ->
     name_self G = Raise e ->
     run = (Raise e, t)).
Proof.
  apply (unknown_model_name_builds_no_model SpecModel.namespace_as_written
           (Scenario.host Scenario.session) Scenario.other_model).
  unfold Scenario.other_model, default_model_name. cbn. discriminate.
Defined.
